(** * db.json: a JSON-file-per-key store

    Shallow embedding of the [JsonDB] class of src/index.ts, and of its
    earlier variant in src/unnamed/part_000, with proofs about the public
    operations [get], [set], [has], [ensure], [push] and [math].

    The class is stateless between calls: every operation goes to the
    file system.  The embedding therefore threads a file system through a
    state-and-exception monad; a thrown JavaScript exception keeps the file
    system as it was at the point of the throw. *)

From Stdlib Require Import ZArith String Ascii List Floats Lia Bool.
From stdpp Require Import base option list gmap strings.

Set Warnings "-register-all".
Local Open Scope string_scope.

(** ** JavaScript values

    Numbers are IEEE binary64, as in the host.  Arrays are lists, objects
    are association lists in property order with pairwise distinct keys.
    [VUndef] is [undefined]; it also stands for a hole of a sparse array.
    Strings are sequences of code units below 256. *)

Inductive value : Type :=
| VUndef
| VNull
| VBool (b : bool)
| VNum (n : float)
| VStr (s : string)
| VArr (elems : list value)
| VObj (fields : list (string * value)).

(** Induction principle that reaches inside arrays and objects. *)
Section value_rect.
Variable P : value → Prop.
Hypothesis Hundef : P VUndef.
Hypothesis Hnull : P VNull.
Hypothesis Hbool : ∀ b, P (VBool b).
Hypothesis Hnum : ∀ n, P (VNum n).
Hypothesis Hstr : ∀ s, P (VStr s).
Hypothesis Harr : ∀ l, Forall P l → P (VArr l).
Hypothesis Hobj : ∀ l, Forall (λ kv, P kv.2) l → P (VObj l).

Fixpoint value_ind' (v : value) : P v :=
    match v with
    | VUndef => Hundef
    | VNull => Hnull
    | VBool b => Hbool b
    | VNum n => Hnum n
    | VStr s => Hstr s
    | VArr l =>
        Harr l ((fix go (l : list value) : Forall P l :=
                   match l with
                   | [] => Forall_nil_2 _
                   | x :: l' => Forall_cons_2 _ _ _ (value_ind' x) (go l')
                   end) l)
    | VObj l =>
        Hobj l ((fix go (l : list (string * value))
                   : Forall (λ kv, P kv.2) l :=
                   match l with
                   | [] => Forall_nil_2 _
                   | kv :: l' =>
                       Forall_cons_2 (λ kv, P kv.2) _ _
                         (value_ind' kv.2) (go l')
                   end) l)
    end.
End value_rect.

(** lodash [isNil]: [null] or [undefined]. *)
Definition isNil (v : value) : bool :=
  match v with VUndef | VNull => true | _ => false end.

(** lodash [isString] on a primitive. *)
Definition isString (v : value) : bool :=
  match v with VStr _ => true | _ => false end.

(** lodash [isObject]: arrays and objects (there are no functions here). *)
Definition isObject (v : value) : bool :=
  match v with VArr _ | VObj _ => true | _ => false end.

(** ** JSON text

    Encoding and decoding are the host's.  A file holds either the text of
    a JSON document, identified with the document [JSON.parse] gives back
    for it, or bytes that are not JSON text. *)

Definition finite (n : float) : bool :=
  negb (PrimFloat.is_nan n || PrimFloat.is_infinity n).

(** What [JSON.parse (JSON.stringify v)] is, for [v] other than
    [undefined]: a number that is not finite becomes [null], negative zero
    becomes zero, an [undefined] array element becomes [null] and an
    [undefined] object member is left out. *)
Fixpoint reparse (v : value) : value :=
  match v with
  | VUndef => VNull
  | VNum n =>
      if finite n
      then (if PrimFloat.is_zero n && PrimFloat.get_sign n
            then VNum 0%float else VNum n)
      else VNull
  | VArr l => VArr (map reparse l)
  | VObj l =>
      VObj ((fix go (l : list (string * value)) :=
               match l with
               | [] => []
               | (k, VUndef) :: l' => go l'
               | (k, x) :: l' => (k, reparse x) :: go l'
               end) l)
  | _ => v
  end.

Inductive content : Type :=
| Text (doc : value)
| Garbage (bytes : string).

(** [JSON.parse]: [None] is a thrown [SyntaxError]. *)
Definition JSON_parse (c : content) : option value :=
  match c with Text d => Some d | Garbage _ => None end.

(** [JSON.stringify v null 2]: [None] is the result [undefined]. *)
Definition JSON_stringify (v : value) : option content :=
  match v with VUndef => None | _ => Some (Text (reparse v)) end.

(** A value [JSON.stringify] and [JSON.parse] give back unchanged. *)
Fixpoint representable (v : value) : bool :=
  match v with
  | VUndef => false
  | VNum n => finite n && negb (PrimFloat.is_zero n && PrimFloat.get_sign n)
  | VArr l => forallb representable l
  | VObj l => forallb (λ kv, representable kv.2) l
  | _ => true
  end.

(** ** Strings and paths *)

(** [s.split(sep)] for a one-character separator. *)
Fixpoint split (sep : ascii) (s : string) : list string :=
  match s with
  | EmptyString => [EmptyString]
  | String c s' =>
      if Ascii.eqb c sep then EmptyString :: split sep s'
      else match split sep s' with
           | h :: t => String c h :: t
           | [] => [String c EmptyString]
           end
  end.

(** [s.endsWith(suf)]. *)
Fixpoint endsWith (suf s : string) : bool :=
  String.eqb s suf ||
  match s with
  | EmptyString => false
  | String _ s' => endsWith suf s'
  end.

Definition startsWith_slash (s : string) : bool :=
  match s with String "/"%char _ => true | _ => false end.

(** An absolute, normalised POSIX path, as its segments from the root. *)
Abbreviation path := (list string).

Definition resolve_segment (acc : path) (seg : string) : path :=
  if String.eqb seg "" || String.eqb seg "." then acc
  else if String.eqb seg ".." then removelast acc
  else (acc ++ [seg])%list.

(** One argument of Node's [path.resolve], applied on top of [base]. *)
Definition resolve_onto (base : path) (arg : string) : path :=
  fold_left resolve_segment (split "/"%char arg)
    (if startsWith_slash arg then [] else base).

(** [path.resolve(a, b, c)] with [a] already resolved. *)
Definition resolve (cwd : path) (dir file : string) : path :=
  resolve_onto (resolve_onto cwd dir) file.

(** ** The file system

    Node's [fs] and [path] are the host's.  The file system is a finite map
    from paths to nodes; the root directory always exists. *)

Inductive node : Type :=
| File (c : content)
| Dir.

Abbreviation FS := (gmap path node).

Inductive error : Type :=
| SyntaxError (msg : string)
| TypeError
| RangeError
| SystemError (code : string)
| Unmodelled (what : string).

Inductive result (A : Type) : Type :=
| Ok (a : A)
| Throw (e : error).
Arguments Ok {A} a.
Arguments Throw {A} e.

(** [Unmodelled] is not a JavaScript exception: it marks a run that leaves
    what the value model can express (a named property on an array, a
    non-number stored as an array's length). *)

(** State over the file system, with exceptions that keep the state. *)
Definition M (A : Type) : Type := FS → FS * result A.

#[export] Instance M_ret : MRet M := λ A a fs, (fs, Ok a).
#[export] Instance M_bind : MBind M := λ A B f m fs,
  match m fs with
  | (fs', Ok a) => f a fs'
  | (fs', Throw e) => (fs', Throw e)
  end.

Definition throw {A} (e : error) : M A := λ fs, (fs, Throw e).

(** [try { m } catch { h }]. *)
Definition try_catch {A} (m h : M A) : M A := λ fs,
  match m fs with
  | (fs', Ok a) => (fs', Ok a)
  | (fs', Throw _) => h fs'
  end.

Definition is_dir (fs : FS) (p : path) : bool :=
  match p with
  | [] => true
  | _ => match fs !! p with Some Dir => true | _ => false end
  end.

(** [fs.existsSync]. *)
Definition existsSync (p : path) : M bool := λ fs,
  (fs, Ok (match p with [] => true | _ => bool_decide (is_Some (fs !! p)) end)).

(** [fs.readFileSync p "utf8"]. *)
Definition readFileSync (p : path) : M content := λ fs,
  match fs !! p with
  | Some (File c) => (fs, Ok c)
  | Some Dir => (fs, Throw (SystemError "EISDIR"))
  | None => (fs, Throw (SystemError "ENOENT"))
  end.

(** The error of creating a file where its directory is missing. *)
Definition no_directory (fs : FS) (p : path) : string :=
  match fs !! p with Some (File _) => "ENOTDIR" | _ => "ENOENT" end.

(** [fs.writeFileSync p data]: [data] must be a string; the file is created
    in an existing directory or replaced. *)
Definition writeFileSync (p : path) (data : option content) : M () := λ fs,
  match data with
  | None => (fs, Throw TypeError)
  | Some c =>
      match p, fs !! p with
      | [], _ => (fs, Throw (SystemError "EISDIR"))
      | _, Some Dir => (fs, Throw (SystemError "EISDIR"))
      | _, Some (File _) => (<[p := File c]> fs, Ok ())
      | _, None =>
          if is_dir fs (removelast p) then (<[p := File c]> fs, Ok ())
          else (fs, Throw (SystemError (no_directory fs (removelast p))))
      end
  end.

(** [fs.mkdirSync p { recursive: true }], creating [pre/s1/../sn]. *)
Fixpoint mkdir_under (pre : path) (segs : list string) (fs : FS)
  : FS * result () :=
  match segs with
  | [] => (fs, Ok ())
  | s :: segs' =>
      let p := (pre ++ [s])%list in
      match fs !! p with
      | Some (File _) => (fs, Throw (SystemError "ENOTDIR"))
      | Some Dir => mkdir_under p segs' fs
      | None => mkdir_under p segs' (<[p := Dir]> fs)
      end
  end.

Definition mkdirSync (p : path) : M () := mkdir_under [] p.

(** ** lodash: [get], [has], [set] on a parsed path

    lodash is imported by the class and is not part of the repository; the
    three functions below follow its [baseGet], [hasPath] and [baseSet].
    A path expression is taken as the non-empty sequence of keys that
    lodash's [castPath] derives from it.  Members inherited from the
    prototypes ([constructor], [toString], [push], ...) are not modelled: a
    lookup sees own properties only. *)

Record PropertyPath : Type := Keys { first_key : string; more_keys : list string }.

Definition castPath (p : PropertyPath) : list string :=
  first_key p :: more_keys p.

Definition digit (c : ascii) : option N :=
  let n := N_of_ascii c in
  if ((48 <=? n) && (n <=? 57))%N then Some (n - 48)%N else None.

Fixpoint parse_digits (acc : N) (s : string) : option N :=
  match s with
  | EmptyString => Some acc
  | String c s' =>
      match digit c with
      | Some d => parse_digits (10 * acc + d)%N s'
      | None => None
      end
  end.

(** lodash [isIndex] on a string key: a canonical decimal numeral below
    [Number.MAX_SAFE_INTEGER]. *)
Definition isIndex (k : string) : option N :=
  match k with
  | EmptyString => None
  | String "0"%char EmptyString => Some 0%N
  | String "0"%char _ => None
  | _ =>
      match parse_digits 0 k with
      | Some n => if (n <? 2 ^ 53 - 1)%N then Some n else None
      | None => None
      end
  end.

Definition float_of_nat (n : nat) : float :=
  PrimFloat.of_uint63 (Uint63.of_Z (Z.of_nat n)).

(** The natural number a float is, when it is one. *)
Definition float_to_N (x : float) : option N :=
  match Prim2SF x with
  | S754_zero _ => Some 0%N
  | S754_finite false m e =>
      match e with
      | Z0 => Some (Npos m)
      | Zpos p => Some (Npos m * 2 ^ Npos p)%N
      | Zneg p =>
          if (Npos m mod 2 ^ Npos p =? 0)%N
          then Some (Npos m / 2 ^ Npos p)%N else None
      end
  | _ => None
  end.

Fixpoint assoc (k : string) (l : list (string * value)) : option value :=
  match l with
  | [] => None
  | (k', x) :: l' => if String.eqb k k' then Some x else assoc k l'
  end.

(** An own property: [None] when there is none, [Some VUndef] when its
    value is [undefined]. *)
Definition ownProp (v : value) (k : string) : option value :=
  match v with
  | VObj l => assoc k l
  | VArr l =>
      if String.eqb k "length" then Some (VNum (float_of_nat (length l)))
      else match isIndex k with
           | Some i =>
               if (i <? N.of_nat (length l))%N then l !! N.to_nat i else None
           | None => None
           end
  | VStr s =>
      if String.eqb k "length"
      then Some (VNum (float_of_nat (String.length s)))
      else match isIndex k with
           | Some i =>
               if (i <? N.of_nat (String.length s))%N
               then option_map (λ c, VStr (String c EmptyString))
                      (String.get (N.to_nat i) s)
               else None
           | None => None
           end
  | _ => None
  end.

(** [object[key]]. *)
Definition getProp (v : value) (k : string) : value :=
  default VUndef (ownProp v k).

(** lodash [baseGet]: the walk stops at [null] or [undefined]. *)
Fixpoint baseGet (object : value) (keys : list string) : value :=
  match keys with
  | [] => object
  | k :: keys' =>
      if isNil object then VUndef else baseGet (getProp object k) keys'
  end.

(** Modelled from the spec: the nested-get capability [get(doc, path)],
    which is lodash [get]; an absent path gives [undefined]. *)
Definition _get (object : value) (p : PropertyPath) : value :=
  baseGet object (castPath p).

(** lodash [hasPath] with [baseHas]. *)
Fixpoint hasPath (object : value) (k : string) (keys : list string) : bool :=
  match ownProp object k with
  | None => false
  | Some x =>
      match keys with
      | [] => true
      | k' :: keys' => hasPath x k' keys'
      end
  end.

(** Modelled from the spec: the nested-has capability [has(doc, path)],
    which is lodash [has]: every key on the way is an own property. *)
Definition _has (object : value) (p : PropertyPath) : bool :=
  hasPath object (first_key p) (more_keys p).

Fixpoint assign_field (k : string) (x : value) (l : list (string * value))
  : list (string * value) :=
  match l with
  | [] => [(k, x)]
  | (k', y) :: l' =>
      if String.eqb k k' then (k, x) :: l' else (k', y) :: assign_field k x l'
  end.

(** [array.length = n]. *)
Definition resize (n : nat) (l : list value) : list value :=
  take n l ++ replicate (n - length l) VUndef.

(** [object[key] = x] on an array or an object. *)
Definition assignProp (object : value) (k : string) (x : value)
  : result value :=
  match object with
  | VObj l => Ok (VObj (assign_field k x l))
  | VArr l =>
      if String.eqb k "length" then
        match x with
        | VNum n =>
            match float_to_N n with
            | Some len =>
                if (len <? 2 ^ 32)%N then Ok (VArr (resize (N.to_nat len) l))
                else Throw RangeError
            | None => Throw RangeError
            end
        | VUndef => Throw RangeError
        | _ => Throw (Unmodelled "array length from a non-number")
        end
      else
        match isIndex k with
        | Some i =>
            if (i <? 2 ^ 32 - 1)%N
            then Ok (VArr (<[N.to_nat i := x]> (resize (S (N.to_nat i) `max` length l) l)))
            else Throw (Unmodelled "named property on an array")
        | None => Throw (Unmodelled "named property on an array")
        end
  | _ => Ok object
  end.

Definition unsafe_key (k : string) : bool :=
  String.eqb k "__proto__" || String.eqb k "constructor"
  || String.eqb k "prototype".

(** The loop of lodash [baseSet], on a container [object]. *)
Fixpoint setIn (object : value) (k : string) (keys : list string) (x : value)
  : result value :=
  if unsafe_key k then Ok object
  else
    match keys with
    | [] => assignProp object k x
    | k' :: keys' =>
        let objValue := getProp object k in
        let newValue :=
          if isObject objValue then objValue
          else match isIndex k' with Some _ => VArr [] | None => VObj [] end in
        match assignProp object k newValue with
        | Throw e => Throw e
        | Ok _ =>
            match setIn newValue k' keys' x with
            | Throw e => Throw e
            | Ok nested => assignProp object k nested
            end
        end
    end.

(** Modelled from the spec: the nested-set capability
    [set(doc, path, value)], which is lodash [set]: containers that are
    absent on the way are created, the object is updated in place and
    returned; anything that is not an object is returned as it is. *)
Definition _set (object : value) (p : PropertyPath) (x : value)
  : result value :=
  if isObject object then setIn object (first_key p) (more_keys p) x
  else Ok object.

(** The effect on [object] of changing in place the value that sits at the
    own-property path [k :: keys] inside it. *)
Fixpoint storeAt (object : value) (k : string) (keys : list string)
  (x : value) : value :=
  let put (y : value) :=
    match object with
    | VObj l => VObj (assign_field k y l)
    | VArr l =>
        match isIndex k with
        | Some i => VArr (<[N.to_nat i := y]> l)
        | None => object
        end
    | _ => object
    end in
  match keys with
  | [] => put x
  | k' :: keys' => put (storeAt (getProp object k) k' keys' x)
  end.

(** ** The host

    What the JavaScript engine provides and the class only calls. *)
Class Host : Type := {
  Number_toString : float → string;
  Math_pow : float → float → float;
  Number_rem : float → float → float;
  Math_floor : float → float
}.

Inductive CloneLevel : Type := none | shallow | deep.

Record DBOptions : Type := {
  dataDir : string;
  cloneLevel : CloneLevel;
  proxy : bool
}.

(** What an operation hands back: the value itself, or a [Proxy] around it
    whose [set] trap rewrites the file at [dbPath]. *)
Inductive handle : Type :=
| Plain (v : value)
| Proxy (target : value) (dbPath : path).

Definition target_of (h : handle) : value :=
  match h with Plain v => v | Proxy t _ => t end.

(** [new Proxy(data, handler)]: the target must be an object. *)
Definition new_Proxy (data : value) (dbPath : path) : result handle :=
  if isObject data then Ok (Proxy data dbPath) else Throw TypeError.

Definition lift {A} (r : result A) : M A := λ fs, (fs, r).

(** lodash [eq] (SameValueZero) between a property of a freshly parsed
    document and a value of the caller: containers are never the same
    object. *)
Definition eq_prim (x y : value) : bool :=
  match x, y with
  | VUndef, VUndef | VNull, VNull => true
  | VBool a, VBool b => Bool.eqb a b
  | VStr a, VStr b => String.eqb a b
  | VNum a, VNum b =>
      PrimFloat.eqb a b || (PrimFloat.is_nan a && PrimFloat.is_nan b)
  | _, _ => false
  end.

(** The [set] trap every handle is built with:
    [target[key] = value; fs.writeFileSync(dbPath, JSON.stringify(target))]. *)
Definition trap_set (target : value) (dbPath : path) (k : string) (x : value)
  : M value :=
  target ← lift (assignProp target k x);
  writeFileSync dbPath (JSON_stringify target);;
  mret target.

(** The first assignment of [_set data p x], which is the one that goes
    through the trap when [data] is a handle: lodash [assignValue] leaves
    out an assignment that changes nothing. *)
Definition first_assignment (h : handle) (p : PropertyPath) (x : value)
  : M () :=
  match h with
  | Plain _ => mret ()
  | Proxy target dbPath =>
      let k := first_key p in
      if unsafe_key k then mret ()
      else
        match more_keys p with
        | [] =>
            match ownProp target k with
            | Some y =>
                if eq_prim y x then mret ()
                else trap_set target dbPath k x;; mret ()
            | None => trap_set target dbPath k x;; mret ()
            end
        | k' :: _ =>
            if isObject (getProp target k) then mret ()
            else
              trap_set target dbPath k
                (match isIndex k' with Some _ => VArr [] | None => VObj [] end);;
              mret ()
        end
  end.

Definition quote : string := String (ascii_of_nat 34) EmptyString.

(** ** The class [JsonDB] (src/index.ts) *)

Module JsonDB.
Section instance.
Context `{Host} (cwd : path) (options : DBOptions).

(** [x.toString()] of a value that is not nil; inside [Array.join] a nil
    element gives the empty string. *)
Fixpoint toString (v : value) : string :=
  match v with
  | VUndef | VNull => ""
  | VBool b => if b then "true" else "false"
  | VNum n => Number_toString n
  | VStr s => s
  | VArr l => String.concat "," (map toString l)
  | VObj _ => "[object Object]"
  end.

(** A value inside a template literal. *)
Definition interpolate (v : value) : string :=
  match v with
  | VUndef => "undefined"
  | VNull => "null"
  | _ => toString v
  end.

Definition getPath (key : string) : path :=
  resolve cwd (dataDir options) (key ++ ".json").

(** [dbPath.split("/").filter(x => !x.endsWith(".json")).join("/")]:
    [None] is the empty string, which names no directory: [existsSync]
    says no and [mkdirSync] throws. *)
Definition dirOf (dbPath : path) : option path :=
  match filter (λ x, endsWith ".json" x = false) dbPath with
  | [] => None
  | d => Some d
  end.

Definition mathOp (base : value) (op : string) (opand : value)
  (random : float) : result value :=
  let arith (f : float → float → float) :=
    match base, opand with
    | VNum b, VNum o => Ok (VNum (f b o))
    | _, _ => Throw (Unmodelled "arithmetic on a non-number")
    end in
  if String.eqb op "add" || String.eqb op "addition" || String.eqb op "+"
  then arith PrimFloat.add
  else if String.eqb op "sub" || String.eqb op "subtract" || String.eqb op "-"
  then arith PrimFloat.sub
  else if String.eqb op "mult" || String.eqb op "multiply" || String.eqb op "*"
  then arith PrimFloat.mul
  else if String.eqb op "div" || String.eqb op "divide" || String.eqb op "/"
  then arith PrimFloat.div
  else if String.eqb op "exp" || String.eqb op "exponent" || String.eqb op "^"
  then arith Math_pow
  else if String.eqb op "mod" || String.eqb op "modulo" || String.eqb op "%"
  then arith Number_rem
  else if String.eqb op "rand" || String.eqb op "random"
  then match opand with
       | VNum o => Ok (VNum (Math_floor (PrimFloat.mul random (Math_floor o))))
       | _ => Throw (Unmodelled "arithmetic on a non-number")
       end
  else Ok VNull.

(** lodash [clone] and [cloneDeep] give a value with the same content; what
    they share with their argument is the subject of [Aliasing] below. *)
Definition clone (data : value) : value :=
  match cloneLevel options with
  | none => data
  | shallow => data
  | deep => data
  end.

Definition wrap (data : value) (dbPath : path) : M handle :=
  if proxy options then lift (new_Proxy data dbPath)
  else mret (Plain data).

(** The [try]/[catch] statement of [get]: the document in the file, or,
    when reading or parsing it throws, the empty document, written to the
    file after the directory [dirOf] names was made. *)
Definition read_or_initialize (dbPath : path) : M value :=
  try_catch
    (c ← readFileSync dbPath;
     match JSON_parse c with
     | Some d => mret d
     | None => throw (SyntaxError "Unexpected token")
     end)
    (match dirOf dbPath with
     | Some dir =>
         b ← existsSync dir;
         if b : bool then mret () else mkdirSync dir
     | None => throw (SystemError "ENOENT")
     end;;
     writeFileSync dbPath (Some (Text (VObj [])));;
     mret (VObj [])).

Definition get (key : value) (path : option PropertyPath) : M handle :=
  if isNil key then mret (Plain VNull)
  else
    let key := toString key in
    let dbPath := getPath key in
    data ← read_or_initialize dbPath;
    match path with
    | Some p => mret (Plain (_get data p))
    | None => wrap data dbPath
    end.

(** With the [proxy] option on, [data] is the handle [get] returned, so
    the first assignment of [_set] goes through its trap. *)
Definition set (key value : value) (path : option PropertyPath) : M handle :=
  if isNil key || negb (isString key)
  then throw (SyntaxError "Keys must always be strings.")
  else
    let key' := toString key in
    h ← get (VStr key') None;
    data ← match path with
           | Some p =>
               let data := target_of h in
               let data := if isNil data then VObj [] else data in
               first_assignment h p value;;
               lift (_set data p value)
           | None => mret value
           end;
    let dbPath := getPath key' in
    writeFileSync dbPath (JSON_stringify data);;
    wrap data dbPath.

Definition has (key : value) (path : option PropertyPath) : M bool :=
  if isNil key then throw TypeError
  else
    let key := toString key in
    match path with
    | Some p =>
        h ← get (VStr key) None;
        mret (_has (target_of h) p)
    | None => existsSync (getPath key)
    end.

Definition ensure (key defaultValue : value) (path : option PropertyPath)
  : M handle :=
  if isNil defaultValue
  then throw (SyntaxError
                ("No default value was provided on ensure method for "
                 ++ quote ++ interpolate key ++ quote ++ "."))
  else
    match path with
    | Some p =>
        b ← has key path;
        if b : bool then get key path
        else set key defaultValue path;; mret (Plain defaultValue)
    | None =>
        b ← has key None;
        if b : bool then get key None
        else
          let clonedValue := clone defaultValue in
          set key clonedValue None;; mret (Plain clonedValue)
    end.

(** [array.push(val)]; anything else has no [push] to call. *)
Definition array_push (a val : value) : result value :=
  match a with
  | VArr l => Ok (VArr (l ++ [val]))
  | _ => Throw TypeError
  end.

(** [data.push(val)] on what [get] returned: through a handle, the new
    element and the new length are both assigned through the trap, which
    writes the same text twice. *)
Definition push_onto (h : handle) (val : value) : M value :=
  data ← lift (array_push (target_of h) val);
  match h with
  | Plain _ => mret data
  | Proxy _ dbPath => writeFileSync dbPath (JSON_stringify data);; mret data
  end.

Definition push (key val : value) (path : option PropertyPath) : M handle :=
  h ← get key path;
  let data := target_of h in
  data ← match path with
         | Some p =>
             let propValue := _get data p in
             propValue ← lift (array_push propValue val);
             let data := storeAt data (first_key p) (more_keys p) propValue in
             lift (_set data p propValue)
         | None => push_onto h val
         end;
  set key data None;;
  let dbPath := getPath (interpolate key) in
  wrap data dbPath.

Definition math (key : value) (operation : string) (operand : value)
  (path : option PropertyPath) (random : float) : M handle :=
  h ← get key path;
  r ← lift (mathOp (target_of h) operation operand random);
  set key r path.

End instance.
End JsonDB.

(** The options given to [new JsonDB(options)]. *)
Record PartialOptions : Type := {
  given_dataDir : option string;
  given_cloneLevel : option CloneLevel;
  given_proxy : option bool
}.

(** The constructor: the defaults, overridden by the options that are
    given and truthy; a data directory that is given is made. *)
Definition new_JsonDB (cwd : path) (options : option PartialOptions)
  : M DBOptions :=
  let defaults :=
    {| dataDir := "./data"; proxy := false; cloneLevel := deep |} in
  match options with
  | None => mret defaults
  | Some given =>
      dir ← match given_dataDir given with
            | Some d =>
                if String.eqb d "" then mret (dataDir defaults)
                else
                  b ← existsSync (resolve_onto cwd d);
                  (if b : bool then mret () else mkdirSync (resolve_onto cwd d));;
                  mret d
            | None => mret (dataDir defaults)
            end;
      mret {| dataDir := dir;
              proxy := match given_proxy given with
                       | Some true => true
                       | _ => proxy defaults
                       end;
              cloneLevel := default (cloneLevel defaults)
                              (given_cloneLevel given) |}
  end.

(** ** The earlier variant of the class (src/unnamed/part_000)

    It has [get] and [set] only and no [cloneLevel] option; [get] is the
    same method.  Its [set] builds the new document and returns it, and
    the file is written by the trap of a handle alone. *)

Module Part000.
Section instance.
Context `{Host} (cwd : path) (options : DBOptions).

Definition getDbPath (key : string) : path :=
  resolve cwd (dataDir options) (key ++ ".json").

Definition wrap (data : value) (dbPath : path) : M handle :=
  if proxy options then lift (new_Proxy data dbPath)
  else mret (Plain data).

Definition get (key : value) (path : option PropertyPath) : M handle :=
  if isNil key then mret (Plain VNull)
  else
    let key := JsonDB.toString key in
    let dbPath := getDbPath key in
    data ← JsonDB.read_or_initialize dbPath;
    match path with
    | Some p => mret (Plain (_get data p))
    | None => wrap data dbPath
    end.

Definition set (key value : value) (path : option PropertyPath) : M handle :=
  if isNil key || negb (isString key)
  then throw (SyntaxError "Keys must always be strings.")
  else
    let key' := JsonDB.toString key in
    h ← get (VStr key') None;
    data ← match path with
           | Some p =>
               let data := target_of h in
               let data := if isNil data then VObj [] else data in
               first_assignment h p value;;
               lift (_set data p value)
           | None => mret value
           end;
    let dbPath := getDbPath key' in
    wrap data dbPath.

End instance.
End Part000.

(** ** Running examples

    A host whose number functions are placeholders; the examples below
    never reach them. *)
Definition example_host : Host := {|
  Number_toString := λ _, "0";
  Math_pow := λ b _, b;
  Number_rem := λ b _, b;
  Math_floor := λ x, x
|}.

Definition default_options : DBOptions :=
  {| dataDir := "./data"; cloneLevel := deep; proxy := false |}.

Definition proxy_options : DBOptions :=
  {| dataDir := "./data"; cloneLevel := deep; proxy := true |}.

(** A working directory [/app] that holds the data directory. *)
Definition app : path := ["app"].

Definition empty_disk : FS := {[ ["app"] := Dir; ["app"; "data"] := Dir ]}.

(** The same disk with one document under key [k]. *)
Definition disk_with (doc : content) : FS :=
  <[ ["app"; "data"; "k.json"] := File doc ]> empty_disk.

(** ** Objects of the caller and what a clone shares with them

    The store keeps JSON text, and every read parses a fresh document.  The
    one place where an object of the caller's is kept as it is, is the
    value [ensure] works on and returns.  Here the caller's values live in a
    heap of mutable arrays and objects, so that two values can be the same
    object. *)

Module Aliasing.

Inductive ref_value : Type :=
| RUndef
| RNull
| RBool (b : bool)
| RNum (n : float)
| RStr (s : string)
| RRef (r : nat).

Inductive object : Type :=
| OArr (elems : list ref_value)
| OObj (fields : list (string * ref_value)).

Abbreviation heap := (list object).

Definition is_nil (v : ref_value) : bool :=
  match v with RUndef | RNull => true | _ => false end.

(** The content of a value, followed through at most [fuel] references. *)
Fixpoint content_upto (fuel : nat) (h : heap) (v : ref_value) : option value :=
  match v with
  | RUndef => Some VUndef
  | RNull => Some VNull
  | RBool b => Some (VBool b)
  | RNum n => Some (VNum n)
  | RStr s => Some (VStr s)
  | RRef r =>
      match fuel with
      | O => None
      | S fuel' =>
          match h !! r with
          | None => None
          | Some (OArr l) => VArr <$> mapM (content_upto fuel' h) l
          | Some (OObj l) =>
              VObj <$> mapM (λ kx : string * ref_value,
                               pair kx.1 <$> content_upto fuel' h kx.2) l
          end
      end
  end.

(** The content of a value that is not circular: a chain of distinct
    references is no longer than the heap. *)
Definition content_of (h : heap) (v : ref_value) : option value :=
  content_upto (S (length h)) h v.

(** Modelled from the spec: clone level [shallow], lodash [clone]: the
    top-level container is duplicated, its members are shared. *)
Definition lodash_clone (h : heap) (v : ref_value) : heap * ref_value :=
  match v with
  | RRef r =>
      match h !! r with
      | Some o => ((h ++ [o])%list, RRef (length h))
      | None => (h, v)
      end
  | _ => (h, v)
  end.

(** Cloning the members of an object one after the other, each in the heap
    the one before has left. *)
Fixpoint clone_elems (clone : heap → ref_value → option (heap * ref_value))
  (l : list ref_value) (h : heap) : option (heap * list ref_value) :=
  match l with
  | [] => Some (h, [])
  | x :: l' =>
      match clone h x with
      | None => None
      | Some (h1, x') =>
          match clone_elems clone l' h1 with
          | None => None
          | Some (h2, l'') => Some (h2, x' :: l'')
          end
      end
  end.

Fixpoint clone_fields (clone : heap → ref_value → option (heap * ref_value))
  (l : list (string * ref_value)) (h : heap)
  : option (heap * list (string * ref_value)) :=
  match l with
  | [] => Some (h, [])
  | (k, x) :: l' =>
      match clone h x with
      | None => None
      | Some (h1, x') =>
          match clone_fields clone l' h1 with
          | None => None
          | Some (h2, l'') => Some (h2, (k, x') :: l'')
          end
      end
  end.

(** Modelled from the spec: clone level [deep], lodash [cloneDeep], for a
    value that is not circular: the whole value is duplicated, with no
    sharing at any depth. *)
Fixpoint cloneDeep_upto (fuel : nat) (h : heap) (v : ref_value)
  : option (heap * ref_value) :=
  match v with
  | RRef r =>
      match fuel with
      | O => None
      | S fuel' =>
          match h !! r with
          | None => None
          | Some (OArr l) =>
              match clone_elems (cloneDeep_upto fuel') l h with
              | None => None
              | Some (h', l') => Some ((h' ++ [OArr l'])%list, RRef (length h'))
              end
          | Some (OObj l) =>
              match clone_fields (cloneDeep_upto fuel') l h with
              | None => None
              | Some (h', l') => Some ((h' ++ [OObj l'])%list, RRef (length h'))
              end
          end
      end
  | _ => Some (h, v)
  end.

Definition cloneDeep (h : heap) (v : ref_value) : option (heap * ref_value) :=
  cloneDeep_upto (S (length h)) h v.

(** [object[k] = x] by the caller, on the object at [r]. *)
Definition mutate (h : heap) (r : nat) (k : string) (x : ref_value) : heap :=
  match h !! r with
  | Some (OObj l) =>
      <[r := OObj ((fix put (l : list (string * ref_value)) :=
                      match l with
                      | [] => [(k, x)]
                      | (k', y) :: l' =>
                          if String.eqb k k' then (k, x) :: l'
                          else (k', y) :: put l'
                      end) l)]> h
  | Some (OArr l) =>
      match isIndex k with
      | Some i => <[r := OArr (<[N.to_nat i := x]> l)]> h
      | None => h
      end
  | None => h
  end.

(** A value that is no reference to an object older than the [n]-th. *)
Definition above (n : nat) (v : ref_value) : Prop :=
  match v with RRef r => (n ≤ r)%nat | _ => True end.

Definition members (o : object) : list ref_value :=
  match o with OArr l => l | OObj l => l.*2 end.

(** From the [n]-th object on, the heap refers to nothing older. *)
Definition closed_above (n : nat) (h : heap) : Prop :=
  ∀ (r : nat) (o : object),
    (n ≤ r)%nat → h !! r = Some o → Forall (above n) (members o).

(** What [ensure] returns: a freshly parsed document, or a value that was
    given to it or cloned by it. *)
Inductive returned : Type :=
| Fresh (doc : handle)
| Given (v : ref_value).

Section instance.
Context `{Host} (cwd : path) (options : DBOptions).

(** [JsonDB.clone]; [None] is a circular value. *)
Definition clone (h : heap) (data : ref_value) : option (heap * ref_value) :=
  match cloneLevel options with
  | none => Some (h, data)
  | shallow => Some (lodash_clone h data)
  | deep => cloneDeep h data
  end.

(** [JsonDB.set] of a value of the caller's: the text written is that of
    its content now.  A circular value makes [JSON.stringify] throw. *)
Definition set (h : heap) (key : value) (x : ref_value)
  (path : option PropertyPath) : M handle :=
  match content_of h x with
  | Some v => JsonDB.set cwd options key v path
  | None =>
      if isNil key || negb (isString key)
      then throw (SyntaxError "Keys must always be strings.")
      else JsonDB.get cwd options key None;; throw TypeError
  end.

(** [JsonDB.ensure], keeping track of which object is which. *)
Definition ensure (key : value) (defaultValue : ref_value)
  (path : option PropertyPath) (h : heap) : M (heap * returned) :=
  if is_nil defaultValue
  then throw (SyntaxError
                ("No default value was provided on ensure method for "
                 ++ quote ++ JsonDB.interpolate key ++ quote ++ "."))
  else
    match path with
    | Some p =>
        b ← JsonDB.has cwd options key path;
        if b : bool
        then doc ← JsonDB.get cwd options key path; mret (h, Fresh doc)
        else set h key defaultValue path;; mret (h, Given defaultValue)
    | None =>
        b ← JsonDB.has cwd options key None;
        if b : bool
        then doc ← JsonDB.get cwd options key None; mret (h, Fresh doc)
        else
          match clone h defaultValue with
          | Some (h', clonedValue) =>
              set h' key clonedValue None;; mret (h', Given clonedValue)
          | None => throw (Unmodelled "clone of a circular value")
          end
    end.

End instance.
End Aliasing.

(** ** The operator table of the specification

    Section 4.7 of the specification, as it is written there: the aliases
    of each operator and what they stand for.  [rand] and [random] take no
    account of the base. *)
Definition operator_table `{Host} (random : float)
  : list (list string * (float → float → float)) :=
  [ (["add"; "addition"; "+"], PrimFloat.add);
    (["sub"; "subtract"; "-"], PrimFloat.sub);
    (["mult"; "multiply"; "*"], PrimFloat.mul);
    (["div"; "divide"; "/"], PrimFloat.div);
    (["exp"; "exponent"; "^"], Math_pow);
    (["mod"; "modulo"; "%"], Number_rem);
    (["rand"; "random"],
     λ _ opand, Math_floor (PrimFloat.mul random (Math_floor opand))) ].

Definition table_lookup `{Host} (random : float) (op : string)
  : option (float → float → float) :=
  snd <$> List.find (λ row, existsb (String.eqb op) row.1)
            (operator_table random).

(** ** Calls and their footprint *)

(** A call of one of the six public methods. *)
Inductive operation : Type :=
| CallGet (key : value) (path : option PropertyPath)
| CallSet (key x : value) (path : option PropertyPath)
| CallHas (key : value) (path : option PropertyPath)
| CallEnsure (key defaultValue : value) (path : option PropertyPath)
| CallPush (key val : value) (path : option PropertyPath)
| CallMath (key : value) (operation : string) (operand : value)
    (path : option PropertyPath) (random : float).

Inductive outcome : Type :=
| Handle (h : handle)
| Answer (b : bool).

Definition perform `{Host} (cwd : path) (o : DBOptions) (c : operation)
  : M outcome :=
  match c with
  | CallGet key p => h ← JsonDB.get cwd o key p; mret (Handle h)
  | CallSet key x p => h ← JsonDB.set cwd o key x p; mret (Handle h)
  | CallHas key p => b ← JsonDB.has cwd o key p; mret (Answer b)
  | CallEnsure key d p => h ← JsonDB.ensure cwd o key d p; mret (Handle h)
  | CallPush key x p => h ← JsonDB.push cwd o key x p; mret (Handle h)
  | CallMath key op x p r => h ← JsonDB.math cwd o key op x p r; mret (Handle h)
  end.

(** What the recovery in [get] can do to a file system: make directories
    where there was nothing, and put the empty document where there was
    nothing or no JSON text.  Everything else is as it was. *)
Definition recovered (fs fs' : FS) : Prop :=
  ∀ p : path,
    fs' !! p = fs !! p
    ∨ (fs !! p = None ∧ fs' !! p = Some Dir)
    ∨ ((fs !! p = None ∨ ∃ g, fs !! p = Some (File (Garbage g)))
       ∧ fs' !! p = Some (File (Text (VObj [])))).

(** The key's file, when it holds a JSON document. *)
Definition stored (cwd : path) (o : DBOptions) (k : string) (fs : FS)
  : option value :=
  match fs !! JsonDB.getPath cwd o k with
  | Some (File (Text d)) => Some d
  | _ => None
  end.

(** ** The tables of operator names (src/index.ts, lines 20 to 43) *)

(** The private table [operations]: the symbol each word stands for. *)
Definition operations : list (string * string) :=
  [ ("add", "+"); ("addition", "+");
    ("sub", "-"); ("subtract", "-");
    ("mult", "*"); ("multiply", "*");
    ("div", "/"); ("divide", "/");
    ("exp", "^"); ("exponent", "^");
    ("mod", "%"); ("modulo", "%") ].

(** The exported table [Operations]. *)
Definition Operations : list (string * string) :=
  [ ("Add", "+"); ("Subtract", "-"); ("Multiply", "*");
    ("Divide", "/"); ("Exponent", "^"); ("Modulo", "%") ].

(** ** Keys and files *)

Fixpoint has_slash (s : string) : bool :=
  match s with
  | EmptyString => false
  | String c s' => Ascii.eqb c "/" || has_slash s'
  end.

(** The key a call is about, and the file of that key. *)
Definition key_of (c : operation) : value :=
  match c with
  | CallGet key _ | CallSet key _ _ | CallHas key _ | CallEnsure key _ _
  | CallPush key _ _ | CallMath key _ _ _ _ => key
  end.

Definition file_of `{Host} (cwd : path) (o : DBOptions) (c : operation)
  : path :=
  JsonDB.getPath cwd o (JsonDB.toString (key_of c)).

(** The file system [fs'] is [fs] but for the node at [p] and for
    directories made where there was nothing. *)
Definition only_at (p : path) (fs fs' : FS) : Prop :=
  ∀ q : path,
    q ≠ p → fs' !! q = fs !! q ∨ (fs !! q = None ∧ fs' !! q = Some Dir).

(** ** Paths lodash's [set] can follow

    The names of the members every object inherits from
    [Object.prototype].  The model of lodash's functions sees own
    properties only, so the statements about nested paths leave these
    names out. *)
Definition inherited_key (k : string) : bool :=
  existsb (String.eqb k)
    ["constructor"; "__defineGetter__"; "__defineSetter__";
     "hasOwnProperty"; "__lookupGetter__"; "__lookupSetter__";
     "isPrototypeOf"; "propertyIsEnumerable"; "toString"; "valueOf";
     "__proto__"; "toLocaleString"]%list.

(** A key that is an ordinary member name: lodash's [set] does not skip
    it, it is not [length], and no object inherits a member of that
    name. *)
Definition plain_key (k : string) : bool :=
  negb (unsafe_key k) && negb (String.eqb k "length")
  && negb (inherited_key k).

(** lodash's [set] can follow the keys [k :: keys] in the container
    [object]: every key is plain, and every array on the way, one of
    [object] or one that [set] makes for a key that is an index, is
    addressed by an index below [2^32 - 1], the largest an array has. *)
Fixpoint follows (object : value) (k : string) (keys : list string) : bool :=
  plain_key k
  && match object with
     | VArr _ =>
         match isIndex k with
         | Some i => (i <? 2 ^ 32 - 1)%N
         | None => false
         end
     | _ => true
     end
  && match keys with
     | [] => true
     | k' :: keys' =>
         follows (if isObject (getProp object k) then getProp object k
                  else match isIndex k' with
                       | Some _ => VArr []
                       | None => VObj []
                       end)
           k' keys'
     end.

(** A document and a path in it that [set] can follow: the document is an
    array or an object. *)
Definition settable (d : value) (p : PropertyPath) : bool :=
  isObject d && follows d (first_key p) (more_keys p).

(** * Proofs *)

(** ** Paths *)

Lemma endsWith_json_segment (acc : path) (seg : string) :
  endsWith ".json" seg = true → resolve_segment acc seg = (acc ++ [seg])%list.
Proof.
  intros Hs. unfold resolve_segment.
  destruct (String.eqb_spec seg "") as [->|_]; [discriminate Hs|].
  destruct (String.eqb_spec seg ".") as [->|_]; [discriminate Hs|].
  destruct (String.eqb_spec seg "..") as [->|_]; [discriminate Hs|].
  reflexivity.
Qed.

Lemma endsWith_cons (suf : string) (c : ascii) (s : string) :
  endsWith suf s = true → endsWith suf (String c s) = true.
Proof. intros Hs. cbn [endsWith]. rewrite Hs. apply orb_true_r. Qed.

Lemma split_json (k : string) :
  ∃ pre name, split "/" (k ++ ".json") = (pre ++ [name])%list
              ∧ endsWith ".json" name = true.
Proof.
  induction k as [|c k (pre & name & Hsplit & Hname)].
  - exists [], ".json". split; reflexivity.
  - change (String c k ++ ".json") with (String c (k ++ ".json")).
    cbn [split]. rewrite Hsplit.
    destruct (Ascii.eqb c "/").
    + exists ("" :: pre), name. split; [reflexivity|assumption].
    + destruct pre as [|h pre]; cbn [app].
      * exists [], (String c name). split; [reflexivity|].
        by apply endsWith_cons.
      * exists (String c h :: pre), name. split; [reflexivity|assumption].
Qed.

Lemma resolve_onto_json (base : path) (k : string) :
  ∃ parent name, resolve_onto base (k ++ ".json") = (parent ++ [name])%list
                 ∧ endsWith ".json" name = true.
Proof.
  destruct (split_json k) as (pre & name & Hsplit & Hname).
  unfold resolve_onto. rewrite Hsplit, fold_left_app. cbn [fold_left].
  eexists _, name. split; [by apply endsWith_json_segment|assumption].
Qed.

(** A key's file is never the root directory: its path ends in a name with
    the suffix [.json]. *)
Lemma getPath_snoc (cwd : path) (o : DBOptions) (k : string) :
  ∃ parent name, JsonDB.getPath cwd o k = (parent ++ [name])%list
                 ∧ endsWith ".json" name = true.
Proof. apply resolve_onto_json. Qed.

Lemma getPath_not_root (cwd : path) (o : DBOptions) (k : string) :
  JsonDB.getPath cwd o k ≠ [].
Proof.
  destruct (getPath_snoc cwd o k) as (parent & name & -> & _).
  by destruct parent.
Qed.

(** ** C5, C10, C6: keys *)

(** C5. [set] called with a key that is nil or not a string throws the
    error "Keys must always be strings." before it touches the file
    system, whatever the value and the path; [get] called with a nil key
    does not throw: it returns [null], and leaves the file system alone. *)
Theorem set_rejects_and_get_tolerates_invalid_key `{Host}
    (cwd : path) (o : DBOptions) (key x : value)
    (p p' : option PropertyPath) (fs : FS) :
  isNil key = true ∨ isString key = false →
  JsonDB.set cwd o key x p fs
    = (fs, Throw (SyntaxError "Keys must always be strings."))
  ∧ (isNil key = true → JsonDB.get cwd o key p' fs = (fs, Ok (Plain VNull))).
Proof.
  intros Hkey. split.
  - unfold JsonDB.set.
    assert (isNil key || negb (isString key) = true) as ->; [|reflexivity].
    destruct Hkey as [->| ->]; [reflexivity|apply orb_true_r].
  - intros Hnil. unfold JsonDB.get. by rewrite Hnil.
Qed.

Lemma set_rejects_and_get_tolerates_invalid_key_witness :
  (isNil VNull = true ∨ isString VNull = false)
  ∧ JsonDB.set (H := example_host) app default_options VNull (VNum 1) None
      empty_disk
    = (empty_disk, Throw (SyntaxError "Keys must always be strings."))
  ∧ JsonDB.set (H := example_host) app default_options (VNum 42) (VNum 1) None
      empty_disk
    = (empty_disk, Throw (SyntaxError "Keys must always be strings.")).
Proof.
  split; [by left|]. split.
  - apply (set_rejects_and_get_tolerates_invalid_key (H := example_host)
             app default_options VNull (VNum 1) None None empty_disk).
    by left.
  - apply (set_rejects_and_get_tolerates_invalid_key (H := example_host)
             app default_options (VNum 42) (VNum 1) None None empty_disk).
    by right.
Defined.

(** C10. [has] called with a nil key throws a [TypeError] (from
    [key.toString()]), with or without a path: it neither returns a
    boolean or [null], nor throws the error [set] throws for such a key. *)
Theorem has_nil_key_throws_TypeError `{Host}
    (cwd : path) (o : DBOptions) (key : value)
    (p : option PropertyPath) (fs : FS) :
  isNil key = true →
  JsonDB.has cwd o key p fs = (fs, Throw TypeError)
  ∧ JsonDB.get cwd o key p fs = (fs, Ok (Plain VNull))
  ∧ JsonDB.set cwd o key VNull p fs
    = (fs, Throw (SyntaxError "Keys must always be strings.")).
Proof.
  intros Hnil. unfold JsonDB.has, JsonDB.get, JsonDB.set.
  by rewrite Hnil.
Qed.

Lemma has_nil_key_throws_TypeError_witness :
  isNil VUndef = true
  ∧ JsonDB.has (H := example_host) app default_options VUndef None empty_disk
    = (empty_disk, Throw TypeError).
Proof.
  split; [reflexivity|].
  apply (has_nil_key_throws_TypeError (H := example_host)
           app default_options VUndef None empty_disk).
  reflexivity.
Defined.



(** ** The file system under the recovery of [get] *)

Lemma recovered_refl (fs : FS) : recovered fs fs.
Proof. intros p. by left. Qed.

Lemma recovered_trans (fs1 fs2 fs3 : FS) :
  recovered fs1 fs2 → recovered fs2 fs3 → recovered fs1 fs3.
Proof.
  intros H12 H23 p.
  destruct (H12 p) as [E12|[[E1 E2]|[E1 E2]]],
           (H23 p) as [E23|[[E2' E3]|[E2' E3]]].
  - left. congruence.
  - right; left. split; congruence.
  - right; right. split; [|done]. by rewrite <- E12.
  - right; left. split; congruence.
  - congruence.
  - destruct E2' as [?|[g ?]]; congruence.
  - right; right. split; congruence.
  - congruence.
  - destruct E2' as [?|[g ?]]; congruence.
Qed.

(** [mkdirSync] makes directories where there was nothing, and that is
    all it does, also when it throws half-way. *)
Lemma mkdir_under_inv (segs : list string) (pre : path) (fs fs' : FS)
    (r : result ()) :
  mkdir_under pre segs fs = (fs', r) →
  ∀ q : path, fs' !! q = fs !! q ∨ (fs !! q = None ∧ fs' !! q = Some Dir).
Proof.
  revert pre fs. induction segs as [|s segs IH]; intros pre fs Hrun q.
  - injection Hrun as <- _. by left.
  - cbn [mkdir_under] in Hrun.
    destruct (fs !! (pre ++ [s])%list) as [[c|]|] eqn:Hp.
    + injection Hrun as <- _. by left.
    + by eapply IH.
    + destruct (IH _ _ Hrun q) as [E|[E1 E2]].
      * destruct (decide (q = (pre ++ [s])%list)) as [->|Hq].
        -- right. by rewrite E, lookup_insert_eq.
        -- left. by rewrite E, lookup_insert_ne.
      * destruct (decide (q = (pre ++ [s])%list)) as [->|Hq].
        -- by rewrite lookup_insert_eq in E1.
        -- right. by rewrite lookup_insert_ne in E1.
Qed.

(** What is written on disk is preserved by recovery. *)
Lemma recovered_document (fs fs' : FS) (p : path) (d : value) :
  recovered fs fs' →
  fs !! p = Some (File (Text d)) → fs' !! p = Some (File (Text d)).
Proof.
  intros Hrec Hp. destruct (Hrec p) as [E|[[E _]|[[E|[g E]] _]]]; congruence.
Qed.

Lemma recovered_directory (fs fs' : FS) (p : path) :
  recovered fs fs' → fs !! p = Some Dir → fs' !! p = Some Dir.
Proof.
  intros Hrec Hp. destruct (Hrec p) as [E|[[E _]|[[E|[g E]] _]]]; congruence.
Qed.

(** ** Reasoning about runs *)

Ltac run := unfold mbind, mret, M_bind, M_ret, throw, lift, try_catch in *.

Lemma bind_inv {A B : Type} (m : M A) (f : A → M B) (fs fs' : FS) (r : result B) :
  (m ≫= f) fs = (fs', r) →
  (∃ fs1 a, m fs = (fs1, Ok a) ∧ f a fs1 = (fs', r))
  ∨ (∃ e, m fs = (fs', Throw e) ∧ r = Throw e).
Proof.
  run. destruct (m fs) as [fs1 [a|e]]; intros Hrun.
  - left. eauto.
  - right. injection Hrun as <- <-. eauto.
Qed.

Lemma bind_ok {A B : Type} (m : M A) (f : A → M B) (fs fs1 : FS) (a : A) :
  m fs = (fs1, Ok a) → (m ≫= f) fs = f a fs1.
Proof. run. by intros ->. Qed.

Lemma bind_throw {A B : Type} (m : M A) (f : A → M B) (fs fs1 : FS) (e : error) :
  m fs = (fs1, Throw e) → (m ≫= f) fs = (fs1, Throw e).
Proof. run. by intros ->. Qed.

Lemma ret_inv {A : Type} (a : A) (fs fs' : FS) (r : result A) :
  (mret a : M A) fs = (fs', r) → fs' = fs ∧ r = Ok a.
Proof. run. by intros [= <- <-]. Qed.

Lemma throw_inv {A : Type} (e : error) (fs fs' : FS) (r : result A) :
  (throw e : M A) fs = (fs', r) → fs' = fs ∧ r = Throw e.
Proof. run. by intros [= <- <-]. Qed.

Lemma lift_inv {A : Type} (x : result A) (fs fs' : FS) (r : result A) :
  lift x fs = (fs', r) → fs' = fs ∧ r = x.
Proof. run. by intros [= <- <-]. Qed.

(** ** The read of [get] *)

Lemma write_inv (p : path) (c : content) (fs fs' : FS) (r : result ()) :
  writeFileSync p (Some c) fs = (fs', r) →
  (r = Ok () ∧ fs' = <[p := File c]> fs ∧ fs !! p ≠ Some Dir)
  ∨ (fs' = fs ∧ ∃ e, r = Throw e).
Proof.
  unfold writeFileSync. destruct p as [|s p]; [intros [= <- <-]; eauto|].
  destruct (fs !! (s :: p)) as [[c'|]|] eqn:Hp;
    [| |destruct (is_dir fs (removelast (s :: p)))];
    intros [= <- <-]; eauto; left; by rewrite ?Hp.
Qed.

Lemma write_existing (p : path) (c c' : content) (fs : FS) :
  p ≠ [] → fs !! p = Some (File c') →
  writeFileSync p (Some c) fs = (<[p := File c]> fs, Ok ()).
Proof.
  intros Hroot Hp. unfold writeFileSync. destruct p as [|s p]; [done|].
  by rewrite Hp.
Qed.

Lemma write_recovered (p : path) (fs fs' : FS) (r : result ()) :
  (∀ d, fs !! p ≠ Some (File (Text d))) →
  writeFileSync p (Some (Text (VObj []))) fs = (fs', r) → recovered fs fs'.
Proof.
  intros Hnodoc Hrun.
  destruct (write_inv _ _ _ _ _ Hrun) as [(_ & -> & Hdir)|[-> _]];
    [|apply recovered_refl].
  intros q. destruct (decide (q = p)) as [->|Hq].
  - right; right. rewrite lookup_insert_eq. split; [|done].
    destruct (fs !! p) as [[[d|g]|]|] eqn:Hp; eauto.
    + by destruct (Hnodoc d).
    + done.
  - left. by rewrite lookup_insert_ne.
Qed.

Lemma exists_inv (p : path) (fs fs' : FS) (r : result bool) :
  existsSync p fs = (fs', r) → fs' = fs ∧ ∃ b, r = Ok b.
Proof. unfold existsSync. intros [= <- <-]. eauto. Qed.

Lemma ensure_dir_inv (dir : option path) (fs fs' : FS) (r : result ()) :
  (match dir with
   | Some dir =>
       b ← existsSync dir;
       if b : bool then mret () else mkdirSync dir
   | None => throw (SystemError "ENOENT")
   end : M ()) fs = (fs', r) →
  ∀ q : path, fs' !! q = fs !! q ∨ (fs !! q = None ∧ fs' !! q = Some Dir).
Proof.
  destruct dir as [dir|]; intros Hrun;
    [|apply throw_inv in Hrun as [-> _]; by left].
  apply bind_inv in Hrun as [(fs0 & b & Hex & Hrun)|(e & Hex & ?)].
  - apply exists_inv in Hex as [-> _]. destruct b.
    + apply ret_inv in Hrun as [-> _]. by left.
    + by eapply mkdir_under_inv.
  - apply exists_inv in Hex as [-> _]. by left.
Qed.

(** The [catch] block, entered when the file holds no document. *)
Lemma initialize_inv (p : path) (fs fs' : FS) (r : result value) :
  (∀ d, fs !! p ≠ Some (File (Text d))) →
  ((match JsonDB.dirOf p with
    | Some dir =>
        b ← existsSync dir;
        if b : bool then mret () else mkdirSync dir
    | None => throw (SystemError "ENOENT")
    end;;
    writeFileSync p (Some (Text (VObj [])));;
    mret (VObj [])) : M value) fs = (fs', r) →
  recovered fs fs'
  ∧ (∀ d, r = Ok d →
          d = VObj [] ∧ fs' !! p = Some (File (Text (VObj [])))).
Proof.
  intros Hnodoc Hrun.
  apply bind_inv in Hrun as [(fs1 & u1 & Hdir & Hrun)|(e & Hdir & ->)];
    pose proof (ensure_dir_inv _ _ _ _ Hdir) as Hdirs.
  2: { split; [|done]. intros q. destruct (Hdirs q); eauto. }
  assert (recovered fs fs1) as Hrec1
    by (intros q; destruct (Hdirs q); eauto).
  assert (∀ d, fs1 !! p ≠ Some (File (Text d))) as Hnodoc1.
  { intros d Hd. destruct (Hdirs p) as [E|[_ E]];
      rewrite Hd in E; [|done]. destruct (Hnodoc d). congruence. }
  apply bind_inv in Hrun as [(fs2 & u2 & Hw & Hrun)|(e & Hw & ->)].
  - apply ret_inv in Hrun as [-> ->].
    split; [eapply recovered_trans; [done|by eapply write_recovered]|].
    intros d [= <-]. split; [done|].
    destruct (write_inv _ _ _ _ _ Hw) as [(_ & -> & _)|[_ [e ?]]]; [|done].
    by rewrite lookup_insert_eq.
  - split; [|done].
    eapply recovered_trans; [done|by eapply write_recovered].
Qed.

Lemma read_existing (p : path) (d : value) (fs : FS) :
  fs !! p = Some (File (Text d)) →
  JsonDB.read_or_initialize p fs = (fs, Ok d).
Proof.
  intros Hp. unfold JsonDB.read_or_initialize, readFileSync. run.
  by rewrite Hp.
Qed.

(** Whatever the read does and however it ends, the file system it leaves
    is the one it found, up to recovery; a document it returns is the one
    in the file. *)
Lemma read_inv (p : path) (fs fs' : FS) (r : result value) :
  JsonDB.read_or_initialize p fs = (fs', r) →
  recovered fs fs'
  ∧ (∀ d, r = Ok d →
          fs' !! p = Some (File (Text d))
          ∧ (fs' = fs ∨ d = VObj [] ∧ ∀ d', fs !! p ≠ Some (File (Text d')))).
Proof.
  destruct (fs !! p) as [[[d0|g]|]|] eqn:Hp.
  { rewrite (read_existing _ _ _ Hp). intros [= <- <-].
    split; [apply recovered_refl|]. intros d [= <-]. eauto. }
  all: assert (∀ d, fs !! p ≠ Some (File (Text d))) as Hnodoc by congruence.
  all: unfold JsonDB.read_or_initialize, try_catch at 1.
  all: unfold readFileSync at 1; unfold mbind at 1, M_bind at 1.
  all: rewrite Hp; cbn [JSON_parse throw].
  all: intros Hrun; apply initialize_inv in Hrun as [Hrec Hok]; [|done].
  all: split; [done|]; intros d Hd; destruct (Hok d Hd) as [-> Hfile]; eauto.
Qed.

(** ** [get] *)

Section get.
Context `{Host} (cwd : path) (o : DBOptions).

Lemma wrap_inv (d : value) (p : path) (fs fs' : FS) (r : result handle) :
  JsonDB.wrap o d p fs = (fs', r) →
  fs' = fs
  ∧ (proxy o = false ∧ r = Ok (Plain d)
     ∨ proxy o = true ∧ isObject d = true ∧ r = Ok (Proxy d p)
     ∨ proxy o = true ∧ isObject d = false ∧ r = Throw TypeError).
Proof.
  unfold JsonDB.wrap, new_Proxy. run.
  destruct (proxy o); [destruct (isObject d)|]; intros [= <- <-]; eauto 10.
Qed.

Lemma wrap_target (d : value) (p : path) (fs fs' : FS) (h : handle) :
  JsonDB.wrap o d p fs = (fs', Ok h) → fs' = fs ∧ target_of h = d.
Proof.
  intros Hw. apply wrap_inv in Hw as [-> [[_ E]|[(_ & _ & E)|(_ & _ & E)]]];
    by simplify_eq.
Qed.

Lemma get_nil (key : value) (p : option PropertyPath) (fs : FS) :
  isNil key = true → JsonDB.get cwd o key p fs = (fs, Ok (Plain VNull)).
Proof. intros Hnil. unfold JsonDB.get. by rewrite Hnil. Qed.

(** [get] leaves the file system it found, up to recovery; what it returns
    is, or is taken from, the document then in the key's file. *)
Lemma get_inv (key : value) (p : option PropertyPath) (fs fs' : FS)
    (r : result handle) :
  JsonDB.get cwd o key p fs = (fs', r) →
  recovered fs fs'
  ∧ (isNil key = false → ∀ h, r = Ok h →
     let dbPath := JsonDB.getPath cwd o (JsonDB.toString key) in
     ∃ d, fs' !! dbPath = Some (File (Text d))
          ∧ (fs' = fs ∨ d = VObj [] ∧ ∀ d', fs !! dbPath ≠ Some (File (Text d')))
          ∧ match p with
            | Some p => h = Plain (_get d p)
            | None => JsonDB.wrap o d dbPath fs' = (fs', Ok h)
            end).
Proof.
  destruct (isNil key) eqn:Hnil.
  { rewrite get_nil by done. intros [= <- <-]. split; [|done].
    apply recovered_refl. }
  unfold JsonDB.get. rewrite Hnil. intros Hrun.
  apply bind_inv in Hrun as [(fs1 & d & Hread & Hrun)|(e & Hread & ->)];
    apply read_inv in Hread as [Hrec Hok]; [|by split].
  destruct (Hok d eq_refl) as [Hfile Hsame].
  destruct p as [p|].
  - apply ret_inv in Hrun as [-> ->]. split; [done|].
    intros _ h [= <-]. eauto.
  - apply wrap_inv in Hrun as Hw. destruct Hw as [-> _]. split; [done|].
    intros _ h ->. eauto.
Qed.

Lemma get_recovered (key : value) (p : option PropertyPath) (fs fs' : FS)
    (r : result handle) :
  JsonDB.get cwd o key p fs = (fs', r) → recovered fs fs'.
Proof. intros Hrun. by apply get_inv in Hrun as [? _]. Qed.

(** A document that is there is read and nothing is written. *)
Lemma get_existing (key : value) (p : option PropertyPath) (d : value)
    (fs : FS) :
  isNil key = false →
  fs !! JsonDB.getPath cwd o (JsonDB.toString key) = Some (File (Text d)) →
  JsonDB.get cwd o key p fs
  = match p with
    | Some p => (fs, Ok (Plain (_get d p)))
    | None => JsonDB.wrap o d (JsonDB.getPath cwd o (JsonDB.toString key)) fs
    end.
Proof.
  intros Hnil Hfile. unfold JsonDB.get. rewrite Hnil.
  rewrite (bind_ok _ _ _ _ _ (read_existing _ _ _ Hfile)).
  by destruct p.
Qed.

Lemma has_inv (key : value) (p : option PropertyPath) (fs fs' : FS)
    (r : result bool) :
  JsonDB.has cwd o key p fs = (fs', r) → recovered fs fs'.
Proof.
  unfold JsonDB.has. destruct (isNil key).
  { intros [-> _]%throw_inv. apply recovered_refl. }
  destruct p as [p|].
  - intros [(fs1 & h & Hget & Hrun)|(e & Hget & ->)]%bind_inv.
    + apply ret_inv in Hrun as [-> _]. by eapply get_recovered.
    + by eapply get_recovered.
  - intros [-> _]%exists_inv. apply recovered_refl.
Qed.

End get.

(** ** JSON text *)

Lemma reparse_representable (v : value) :
  representable v = true → reparse v = v.
Proof.
  induction v as [| |b|n|s|l IH|l IH] using value_ind'; cbn; try done.
  - intros [-> Hz]%andb_true_iff. apply negb_true_iff in Hz. by rewrite Hz.
  - intros Hl. f_equal. induction IH as [|x l Hx _ IHl]; [done|].
    cbn in Hl. apply andb_true_iff in Hl as [Hx' Hl']. cbn.
    by rewrite Hx, IHl.
  - intros Hl. f_equal. induction IH as [|[k x] l Hx _ IHl]; [done|].
    cbn in Hl. apply andb_true_iff in Hl as [Hx' Hl']. cbn in Hx, Hx'.
    rewrite IHl by done. rewrite (Hx Hx'). by destruct x.
Qed.

Lemma stringify_defined (v : value) :
  v ≠ VUndef → JSON_stringify v = Some (Text (reparse v)).
Proof. by destruct v. Qed.

Lemma representable_defined (v : value) : representable v = true → v ≠ VUndef.
Proof. by destruct v. Qed.

(** ** [set] *)

Section set.
Context `{Host} (cwd : path) (o : DBOptions).

(** [set] without a path, once the read in it has gone through: the text
    of the value replaces the file, and the value is handed back. *)
Lemma set_whole (k : string) (x : value) (fs fs1 : FS) (h : handle) :
  JsonDB.get cwd o (VStr k) None fs = (fs1, Ok h) →
  x ≠ VUndef →
  JsonDB.set cwd o (VStr k) x None fs
  = let dbPath := JsonDB.getPath cwd o k in
    JsonDB.wrap o x dbPath (<[dbPath := File (Text (reparse x))]> fs1).
Proof.
  intros Hget Hx. unfold JsonDB.set. cbn [isNil isString negb orb].
  cbn [JsonDB.toString]. rewrite (bind_ok _ _ _ _ _ Hget).
  apply get_inv in Hget as [_ Hget].
  destruct (Hget eq_refl h eq_refl) as (d & Hfile & _).
  cbn [JsonDB.toString] in Hfile.
  unfold mbind at 1, M_bind at 1, mret at 1, M_ret at 1.
  rewrite (stringify_defined x Hx).
  erewrite bind_ok; [done|].
  by eapply write_existing; [apply getPath_not_root|].
Qed.

End set.

(** ** C1: round trip *)

Section round_trip.
Context `{Host} (cwd : path) (o : DBOptions).

(** X20. In src/index.ts, on a key whose file [get] can read or
    initialize: [set] without a path followed by [get] without a path
    hands back the value, for a value JSON text represents, as long as the
    handle can be built (the [proxy] option is off, or the value is an
    array or an object). *)
Lemma set_then_get (k : string) (x : value) (fs fs1 : FS) (h0 : handle) :
  representable x = true →
  proxy o = false ∨ isObject x = true →
  JsonDB.get cwd o (VStr k) None fs = (fs1, Ok h0) →
  ∃ fs2 h h',
    JsonDB.set cwd o (VStr k) x None fs = (fs2, Ok h)
    ∧ JsonDB.get cwd o (VStr k) None fs2 = (fs2, Ok h')
    ∧ target_of h = x ∧ target_of h' = x
    ∧ stored cwd o k fs2 = Some x.
Proof.
  intros Hx Hwrap Hget.
  pose proof (set_whole cwd o k x fs fs1 h0 Hget
                (representable_defined x Hx)) as Hset.
  cbv zeta in Hset. rewrite (reparse_representable x Hx) in Hset.
  set (dbPath := JsonDB.getPath cwd o k) in *.
  set (fs2 := <[dbPath := File (Text x)]> fs1) in *.
  assert (fs2 !! dbPath = Some (File (Text x))) as Hfile
    by apply lookup_insert_eq.
  assert (∃ h, ∀ fs, JsonDB.wrap o x dbPath fs = (fs, Ok h) ∧ target_of h = x)
    as [h Hh].
  { unfold JsonDB.wrap, new_Proxy. run.
    destruct Hwrap as [-> | Hobj]; [by eexists|].
    destruct (proxy o); [rewrite Hobj|]; by eexists. }
  exists fs2. exists h. exists h. rewrite Hset.
  rewrite (get_existing cwd o (VStr k) None x fs2 eq_refl Hfile).
  destruct (Hh fs2) as [Hw Ht]. rewrite Hw, Ht. unfold stored. fold dbPath.
  by rewrite Hfile.
Qed.

End round_trip.

(** C1. The round trip fails on the code.  In src/unnamed/part_000, [set]
    never writes the file: after [set "k" 1] on an empty data directory,
    [get "k"] returns the empty document.  In src/index.ts, with the
    [proxy] option on, [set "k" 5] writes the file and then throws a
    [TypeError] when it builds the handle around the number, and so does
    every [get "k"] after it. *)
Theorem round_trip_is_broken :
  (let run := Part000.set (H := example_host) app default_options
                (VStr "k") (VNum 1) None empty_disk in
   run.2 = Ok (Plain (VNum 1))
   ∧ Part000.get (H := example_host) app default_options (VStr "k") None run.1
     = (disk_with (Text (VObj [])), Ok (Plain (VObj []))))
  ∧ JsonDB.set (H := example_host) app proxy_options (VStr "k") (VNum 5) None
      empty_disk
    = (disk_with (Text (VNum 5)), Throw TypeError)
  ∧ JsonDB.get (H := example_host) app proxy_options (VStr "k") None
      (disk_with (Text (VNum 5)))
    = (disk_with (Text (VNum 5)), Throw TypeError).
Proof. repeat split; vm_compute; reflexivity. Qed.

(** ** C4: the read that initializes *)

(** The two variants have the same [get]. *)
Lemma part000_get_is_get `{Host} (cwd : path) (o : DBOptions) (key : value)
    (p : option PropertyPath) :
  Part000.get cwd o key p = JsonDB.get cwd o key p.
Proof. reflexivity. Qed.

(** C4. [get] fails on a key whose file is missing when a directory on the
    way to the file has a name that ends in [.json]: the directory the
    code makes is the path without every such segment, so the file's own
    directory is not made, and writing the empty document throws.  Both
    variants of [get] do so. *)
Theorem get_fails_under_a_json_directory :
  JsonDB.getPath app default_options "a.json/b"
  = ["app"; "data"; "a.json"; "b.json"]
  ∧ JsonDB.dirOf ["app"; "data"; "a.json"; "b.json"] = Some ["app"; "data"]
  ∧ JsonDB.get (H := example_host) app default_options (VStr "a.json/b") None
      empty_disk
    = (empty_disk, Throw (SystemError "ENOENT"))
  ∧ Part000.get (H := example_host) app default_options (VStr "a.json/b") None
      empty_disk
    = (empty_disk, Throw (SystemError "ENOENT")).
Proof. repeat split; vm_compute; reflexivity. Qed.

(** ** The read that initializes, where it works *)

Local Open Scope list_scope.




(** ** C9: what a failed call leaves behind *)

Section failure.
Context `{Host} (cwd : path) (o : DBOptions).
Hypothesis proxy_off : proxy o = false.







End failure.




(** ** C2: [push] *)

Section push.
Context `{Host} (cwd : path) (o : DBOptions).

(** X21. With a path, [push] looks the path up twice: in the document,
    and again in what it found there.  Unless that second lookup finds an
    array, the call throws and writes nothing. *)
Lemma push_at_path_throws (k : string) (x d : value) (p : PropertyPath)
    (fs : FS) :
  stored cwd o k fs = Some d →
  (∀ l, _get (_get d p) p ≠ VArr l) →
  JsonDB.push cwd o (VStr k) x (Some p) fs = (fs, Throw TypeError).
Proof.
  unfold stored. intros Hd Hno.
  destruct (fs !! JsonDB.getPath cwd o k) as [[[d0|]|]|] eqn:Hfile;
    try done. injection Hd as ->.
  unfold JsonDB.push.
  rewrite (bind_ok _ _ _ _ _
             (get_existing cwd o (VStr k) (Some p) d fs eq_refl Hfile)).
  cbn [target_of]. unfold JsonDB.array_push.
  destruct (_get (_get d p) p) eqn:Hsub; try reflexivity.
  by destruct (Hno elems).
Qed.

(** X22. Without a path, on a document that is an array, [push] appends:
    the text of the longer array replaces the file, and the longer array
    is handed back. *)
Lemma push_whole (k : string) (x : value) (l : list value) (fs : FS) :
  stored cwd o k fs = Some (VArr l) →
  JsonDB.push cwd o (VStr k) x None fs
  = (<[JsonDB.getPath cwd o k := File (Text (reparse (VArr (l ++ [x]))))]> fs,
     Ok (if proxy o then Proxy (VArr (l ++ [x])) (JsonDB.getPath cwd o k)
         else Plain (VArr (l ++ [x])))).
Proof.
  unfold stored. intros Hd.
  destruct (fs !! JsonDB.getPath cwd o k) as [[[d0|]|]|] eqn:Hfile;
    try done. injection Hd as ->.
  set (dbPath := JsonDB.getPath cwd o k) in *.
  set (a := VArr (l ++ [x])).
  set (fs' := <[dbPath := File (Text (reparse a))]> fs).
  assert (dbPath ≠ []) as Hroot by apply getPath_not_root.
  assert (∀ fs0, JsonDB.wrap o a dbPath fs0
                 = (fs0, Ok (if proxy o then Proxy a dbPath else Plain a)))
    as Hwrap.
  { intros fs0. unfold JsonDB.wrap, new_Proxy. run. by destruct (proxy o). }
  assert (∀ fs0 h, (fs0 = fs ∨ fs0 = fs') →
                   JsonDB.get cwd o (VStr k) None fs0 = (fs0, Ok h) →
                   JsonDB.set cwd o (VStr k) a None fs0
                   = (fs', Ok (if proxy o then Proxy a dbPath else Plain a)))
    as Hset.
  { intros fs0 h Hfs0 Hget.
    rewrite (set_whole cwd o k a fs0 fs0 h Hget) by done. cbv zeta.
    fold dbPath. rewrite Hwrap. f_equal.
    destruct Hfs0 as [->| ->]; [done|]. apply insert_insert_eq. }
  pose proof (get_existing cwd o (VStr k) None (VArr l) fs eq_refl Hfile)
    as Hget. cbn [JsonDB.toString] in Hget. fold dbPath in Hget.
  unfold JsonDB.wrap, new_Proxy in Hget. cbn [isObject] in Hget.
  assert (writeFileSync dbPath (Some (Text (reparse a))) fs = (fs', Ok ()))
    as Hw by (by eapply write_existing).
  assert (fs' !! dbPath = Some (File (Text (reparse a)))) as Hfile'
    by apply lookup_insert_eq.
  pose proof (get_existing cwd o (VStr k) None _ fs' eq_refl Hfile')
    as Hget'. cbn [JsonDB.toString] in Hget'. fold dbPath in Hget'.
  unfold JsonDB.wrap, new_Proxy in Hget'.
  cbn [a reparse isObject] in Hget'.
  unfold JsonDB.push, JsonDB.push_onto.
  cbn [JsonDB.interpolate JsonDB.toString]. fold dbPath.
  destruct (proxy o) eqn:Hproxy; run; rewrite Hget;
    cbn [target_of JsonDB.array_push]; fold a; cbn [JSON_stringify a].
  - rewrite Hw. erewrite Hset; [apply Hwrap|by right|].
    run. exact Hget'.
  - erewrite Hset; [apply Hwrap|by left|]. run. exact Hget.
Qed.

End push.

(** C2. [push] with a path does not append to the array at the path.  On
    the document [{"a": [1], "b": 7}], [push "k" 2 "a"] throws a
    [TypeError] and leaves the file as it is: the code reads the array at
    [a] and then looks [a] up inside that array.  When the second lookup
    does find an array, as with the path [0] on [[[1]]], the value the
    first lookup found is written back as the whole document, so what is
    around it is lost. *)
Theorem push_at_path_misses_the_array :
  JsonDB.push (H := example_host) app default_options (VStr "k") (VNum 2)
    (Some (Keys "a" []))
    (disk_with (Text (VObj [("a", VArr [VNum 1]); ("b", VNum 7)])))
  = (disk_with (Text (VObj [("a", VArr [VNum 1]); ("b", VNum 7)])),
     Throw TypeError)
  ∧ JsonDB.push (H := example_host) app default_options (VStr "k") (VNum 2)
      (Some (Keys "0" []))
      (disk_with (Text (VArr [VArr [VArr [VNum 1]]; VNum 7])))
    = (disk_with (Text (VArr [VArr [VNum 1; VNum 2]])),
       Ok (Plain (VArr [VArr [VNum 1; VNum 2]]))).
Proof. split; vm_compute; reflexivity. Qed.

(** ** C7: [ensure] on what is there *)

Lemma wrap_ok `{Host} (o : DBOptions) (d : value) (p : path) (fs : FS) :
  proxy o = false ∨ isObject d = true →
  JsonDB.wrap o d p fs = (fs, Ok (if proxy o then Proxy d p else Plain d)).
Proof.
  unfold JsonDB.wrap, new_Proxy. run.
  intros [-> | Hobj]; [done|]. rewrite Hobj. by destruct (proxy o).
Qed.




(** ** C8: [math] *)


Lemma assignProp_isObject (d d' : value) (k : string) (x : value) :
  isObject d = true → assignProp d k x = Ok d' → isObject d' = true.
Proof.
  destruct d as [| | | | |l|l]; try done; cbn [assignProp]; intros _.
  - repeat case_match; by intros [= <-].
  - by intros [= <-].
Qed.

Lemma setIn_isObject (keys : list string) (d d' : value) (k : string)
    (x : value) :
  isObject d = true → setIn d k keys x = Ok d' → isObject d' = true.
Proof.
  destruct keys as [|k' keys]; cbn [setIn]; intros Hd.
  - destruct (unsafe_key k); [by intros [= <-]|].
    by apply assignProp_isObject.
  - destruct (unsafe_key k); [by intros [= <-]|].
    destruct (assignProp d k _); [|done].
    destruct (setIn _ k' keys x); [|done].
    by apply assignProp_isObject.
Qed.

Lemma isObject_defined (d : value) : isObject d = true → d ≠ VUndef.
Proof. by destruct d. Qed.

Section set_at.
Context `{Host} (cwd : path) (o : DBOptions).

(** Through a handle, the first assignment of [_set] either changes
    nothing or writes the file of the handle, which is there. *)
Lemma first_assignment_ok (d d' : value) (dbPath : path) (p : PropertyPath)
    (x : value) (c : content) (fs : FS) :
  isObject d = true → dbPath ≠ [] →
  fs !! dbPath = Some (File c) →
  _set d p x = Ok d' →
  ∃ fs1, first_assignment (Proxy d dbPath) p x fs = (fs1, Ok ())
         ∧ (∃ c1, fs1 !! dbPath = Some (File c1))
         ∧ ∀ c', <[dbPath := File c']> fs1 = <[dbPath := File c']> fs.
Proof.
  intros Hd Hroot Hfile. unfold _set. rewrite Hd.
  assert (∀ y d1, assignProp d (first_key p) y = Ok d1 →
            ∃ fs1, (trap_set d dbPath (first_key p) y;; mret ()) fs
                   = (fs1, Ok ())
                   ∧ (∃ c1, fs1 !! dbPath = Some (File c1))
                   ∧ ∀ c', <[dbPath := File c']> fs1 = <[dbPath := File c']> fs)
    as Htrap.
  { intros y d1 Hassign. unfold trap_set. run. rewrite Hassign.
    rewrite stringify_defined
      by (eapply isObject_defined, assignProp_isObject; eauto).
    erewrite write_existing by done.
    eexists. split; [reflexivity|]. split.
    - eexists. apply lookup_insert_eq.
    - intros c'. apply insert_insert_eq. }
  assert (∃ fs1, (mret () : M ()) fs = (fs1, Ok ())
                 ∧ (∃ c1, fs1 !! dbPath = Some (File c1))
                 ∧ ∀ c', <[dbPath := File c']> fs1 = <[dbPath := File c']> fs)
    as Hskip by (exists fs; eauto).
  unfold first_assignment. destruct p as [k keys]. cbn [first_key more_keys] in *.
  destruct keys as [|k' keys]; cbn [setIn]; destruct (unsafe_key k);
    intros Hset; try exact Hskip.
  - destruct (ownProp d k) as [y|]; [destruct (eq_prim y x)|];
      try exact Hskip; by eapply Htrap.
  - destruct (isObject (getProp d k)); [exact Hskip|].
    destruct (assignProp d k _) as [d1|] eqn:Hassign; [|done].
    by eapply Htrap.
Qed.

(** [set] with a path, on a key whose file holds a document: the document
    is read, lodash's [set] puts the value at the path, and the text of the
    result replaces the file. *)
Lemma set_at (k : string) (x d d' : value) (p : PropertyPath) (fs : FS) :
  stored cwd o k fs = Some d →
  proxy o = false ∨ isObject d = true →
  _set (if isNil d then VObj [] else d) p x = Ok d' →
  JsonDB.set cwd o (VStr k) x (Some p) fs
  = JsonDB.wrap o d' (JsonDB.getPath cwd o k)
      (<[JsonDB.getPath cwd o k := File (Text (reparse d'))]> fs).
Proof.
  unfold stored. intros Hd Hwrap Hset.
  destruct (fs !! JsonDB.getPath cwd o k) as [[[d0|]|]|] eqn:Hfile;
    try done. injection Hd as ->.
  set (dbPath := JsonDB.getPath cwd o k) in *.
  assert (dbPath ≠ []) as Hroot by apply getPath_not_root.
  pose proof (get_existing cwd o (VStr k) None d fs eq_refl Hfile) as Hget.
  cbn [JsonDB.toString] in Hget. fold dbPath in Hget.
  rewrite wrap_ok in Hget by done.
  assert (d' ≠ VUndef) as Hd'.
  { unfold _set in Hset.
    destruct (isObject (if isNil d then VObj [] else d)) eqn:Hobj.
    - eapply isObject_defined, setIn_isObject; [exact Hobj|exact Hset].
    - injection Hset as <-. by destruct d. }
  assert (∃ fs1,
            first_assignment (if proxy o then Proxy d dbPath else Plain d) p x fs
            = (fs1, Ok ())
            ∧ (∃ c, fs1 !! dbPath = Some (File c))
            ∧ ∀ c', <[dbPath := File c']> fs1 = <[dbPath := File c']> fs)
    as (fs1 & Hfirst & [c1 Hfile1] & Hsame).
  { destruct (proxy o) eqn:Hproxy; [|exists fs; eauto].
    destruct Hwrap as [?|Hobj]; [done|].
    assert (isNil d = false) as Hnil by (by destruct d).
    rewrite Hnil in Hset.
    by eapply first_assignment_ok. }
  unfold JsonDB.set. cbn [isNil isString negb orb JsonDB.toString].
  fold dbPath. run. rewrite Hget.
  assert (target_of (if proxy o then Proxy d dbPath else Plain d) = d) as Ht
    by (by destruct (proxy o)).
  rewrite Ht, Hfirst, Hset, (stringify_defined d' Hd').
  rewrite (write_existing dbPath _ c1 fs1 Hroot Hfile1), Hsame.
  unfold JsonDB.wrap. run. by destruct (proxy o).
Qed.

End set_at.

(** ** lodash's [set] followed by lodash's [get] *)

Lemma baseGet_undef (keys : list string) : baseGet VUndef keys = VUndef.
Proof. by destruct keys. Qed.

(** A lookup that finds something other than [undefined] has gone through
    own properties only. *)
Lemma baseGet_hasPath (keys : list string) (d : value) (k : string) :
  baseGet d (k :: keys) ≠ VUndef → hasPath d k keys = true.
Proof.
  revert d k. induction keys as [|k' keys IH]; intros d k.
  - cbn [baseGet hasPath]. destruct (isNil d); [done|].
    unfold getProp. by destruct (ownProp d k).
  - intros Hget.
    change (baseGet d (k :: k' :: keys))
      with (if isNil d then VUndef
            else baseGet (getProp d k) (k' :: keys)) in Hget.
    destruct (isNil d); [done|].
    change (hasPath d k (k' :: keys))
      with (match ownProp d k with
            | None => false
            | Some x => hasPath x k' keys
            end).
    unfold getProp in Hget. destruct (ownProp d k) as [y|].
    + by apply IH.
    + cbn [default] in Hget. by rewrite baseGet_undef in Hget.
Qed.

Lemma isObject_reparse (d : value) :
  isObject d = true → isObject (reparse d) = true.
Proof. by destruct d. Qed.

Lemma assoc_assign_field (k : string) (x : value) (l : list (string * value)) :
  assoc k (assign_field k x l) = Some x.
Proof.
  induction l as [|[k' y] l IH]; cbn [assign_field assoc].
  - by rewrite String.eqb_refl.
  - destruct (String.eqb k k') eqn:E; cbn [assoc].
    + by rewrite String.eqb_refl.
    + by rewrite E.
Qed.

Lemma length_resize (n : nat) (l : list value) : length (resize n l) = n.
Proof.
  unfold resize. rewrite length_app, length_take, length_replicate. lia.
Qed.

(** After [object[k] = x], the own property [k] of the object is [x]. *)
Lemma ownProp_assignProp (d d' : value) (k : string) (x : value) :
  k ≠ "length" → isObject d = true → assignProp d k x = Ok d' →
  ownProp d' k = Some x.
Proof.
  intros Hk Hobj Hassign. apply String.eqb_neq in Hk.
  destruct d as [| | | | |l|l]; try done; cbn [assignProp] in Hassign.
  - rewrite Hk in Hassign.
    destruct (isIndex k) as [i|] eqn:Hi; [|done].
    destruct (i <? 2 ^ 32 - 1)%N; [|done]. injection Hassign as <-.
    cbn [ownProp]. rewrite Hk, Hi, length_insert, length_resize.
    rewrite (proj2 (N.ltb_lt _ _)) by lia.
    apply list_lookup_insert_eq. rewrite length_resize. lia.
  - injection Hassign as <-. apply assoc_assign_field.
Qed.

(** lodash's [set] followed by lodash's [get], on the same keys. *)
Lemma baseGet_setIn (keys : list string) (d d' : value) (k : string)
    (x : value) :
  isObject d = true →
  Forall (λ k, unsafe_key k = false ∧ k ≠ "length") (k :: keys) →
  setIn d k keys x = Ok d' →
  baseGet d' (k :: keys) = x.
Proof.
  revert d d' k. induction keys as [|k' keys IH]; intros d d' k Hobj Hkeys.
  - apply Forall_cons in Hkeys as [[Hu Hl] _].
    cbn [setIn]. rewrite Hu. intros Hset. cbn [baseGet].
    pose proof (assignProp_isObject _ _ _ _ Hobj Hset) as Hobj'.
    assert (isNil d' = false) as -> by (by destruct d').
    unfold getProp. by rewrite (ownProp_assignProp d d' k x).
  - apply Forall_cons in Hkeys as [[Hu Hl] Hkeys].
    change (setIn d k (k' :: keys) x)
      with (if unsafe_key k then Ok d
            else
              let objValue := getProp d k in
              let newValue :=
                if isObject objValue then objValue
                else match isIndex k' with
                     | Some _ => VArr []
                     | None => VObj []
                     end in
              match assignProp d k newValue with
              | Throw e => Throw e
              | Ok _ =>
                  match setIn newValue k' keys x with
                  | Throw e => Throw e
                  | Ok nested => assignProp d k nested
                  end
              end).
    rewrite Hu. cbv zeta.
    set (newValue := if isObject (getProp d k) then getProp d k
                     else match isIndex k' with
                          | Some _ => VArr []
                          | None => VObj []
                          end).
    assert (isObject newValue = true) as Hnew.
    { unfold newValue. destruct (isObject (getProp d k)) eqn:E; [done|].
      by destruct (isIndex k'). }
    destruct (assignProp d k newValue); [|done].
    destruct (setIn newValue k' keys x) as [nested|] eqn:Hrec; [|done].
    intros Hset.
    pose proof (assignProp_isObject _ _ _ _ Hobj Hset) as Hobj'.
    change (baseGet d' (k :: k' :: keys))
      with (if isNil d' then VUndef
            else baseGet (getProp d' k) (k' :: keys)).
    assert (isNil d' = false) as -> by (by destruct d').
    unfold getProp. rewrite (ownProp_assignProp d d' k nested) by done.
    by apply (IH newValue).
Qed.

(** What JSON text does to the members of an object: a member that is not
    [undefined] is kept, as text keeps it. *)
Lemma reparse_fields (l : list (string * value)) (k : string) :
  ∃ l', reparse (VObj l) = VObj l'
        ∧ ∀ y, assoc k l = Some y → y ≠ VUndef →
               assoc k l' = Some (reparse y).
Proof.
  induction l as [|[k' y] l (l' & E & IH)].
  - by exists [].
  - cbn [reparse] in E. injection E as E.
    assert (y = VUndef ∨ y ≠ VUndef) as [->|Hy]
      by (destruct y; [by left|by right..]).
    + exists l'. split; [cbn [reparse]; by rewrite E|].
      intros y. cbn [assoc]. destruct (String.eqb k k'); [|by apply IH].
      by intros [= <-].
    + exists ((k', reparse y) :: l'). split.
      * cbn [reparse]. rewrite E. by destruct y.
      * intros y0. cbn [assoc]. destruct (String.eqb k k'); [|by apply IH].
        by intros [= <-].
Qed.

(** A lookup that finds a value finds, in the document once it has been
    through JSON text, the value as text keeps it. *)
Lemma baseGet_reparse (keys : list string) (d x : value) :
  Forall (λ k, k ≠ "length") keys →
  baseGet d keys = x → x ≠ VUndef →
  baseGet (reparse d) keys = reparse x.
Proof.
  revert d. induction keys as [|k keys IH]; intros d Hkeys Hget Hx.
  - cbn [baseGet] in *. by subst.
  - apply Forall_cons in Hkeys as [Hk Hkeys]. apply String.eqb_neq in Hk.
    change (baseGet d (k :: keys))
      with (if isNil d then VUndef else baseGet (getProp d k) keys) in Hget.
    change (baseGet (reparse d) (k :: keys))
      with (if isNil (reparse d) then VUndef
            else baseGet (getProp (reparse d) k) keys).
    destruct d as [| |b|n|s|l|l]; cbn [isNil] in Hget; try (by subst).
    + unfold getProp in Hget. cbn [ownProp default] in Hget.
      rewrite baseGet_undef in Hget. by subst.
    + unfold getProp in Hget. cbn [ownProp default] in Hget.
      rewrite baseGet_undef in Hget. by subst.
    + cbn [reparse isNil].
      assert (reparse (getProp (VStr s) k) = getProp (VStr s) k
              ∨ getProp (VStr s) k = VUndef) as [E|E].
      { unfold getProp. cbn [ownProp]. rewrite Hk.
        destruct (isIndex k) as [i|]; [|by right].
        destruct (i <? N.of_nat (String.length s))%N; [|by right].
        destruct (String.get (N.to_nat i) s); [by left|by right]. }
      * rewrite <- E. by apply IH.
      * rewrite E, baseGet_undef in Hget. by subst.
    + cbn [reparse isNil]. unfold getProp in *. cbn [ownProp] in *.
      rewrite length_map, Hk in *.
      destruct (isIndex k) as [i|].
      2: { cbn [default] in Hget. rewrite baseGet_undef in Hget. by subst. }
      destruct (i <? N.of_nat (length l))%N.
      2: { cbn [default] in Hget. rewrite baseGet_undef in Hget. by subst. }
      rewrite list_lookup_fmap.
      destruct (l !! N.to_nat i) as [y|].
      2: { cbn [default] in Hget. rewrite baseGet_undef in Hget. by subst. }
      cbn [fmap option_fmap option_map default] in *. by apply IH.
    + destruct (reparse_fields l k) as (l' & -> & Hl'). cbn [isNil].
      unfold getProp in *. cbn [ownProp] in *.
      destruct (assoc k l) as [y|].
      * cbn [default] in Hget.
        assert (y ≠ VUndef) as Hy.
        { intros ->. rewrite baseGet_undef in Hget. by subst. }
        rewrite (Hl' y eq_refl Hy). cbn [default]. by apply IH.
      * cbn [default] in Hget. rewrite baseGet_undef in Hget. by subst.
Qed.

Lemma reparse_defined (x : value) : reparse x ≠ VUndef.
Proof. destruct x as [| | |n| | |]; try done. cbn [reparse]. by repeat case_match. Qed.

Lemma plain_key_inv (k : string) :
  plain_key k = true → unsafe_key k = false ∧ k ≠ "length".
Proof.
  unfold plain_key. intros [[Hu Hl]%andb_true_iff _]%andb_true_iff.
  apply negb_true_iff in Hu, Hl. split; [done|]. by apply String.eqb_neq.
Qed.

(** The keys of a path [set] can follow. *)
Lemma follows_keys (keys : list string) (d : value) (k : string) :
  follows d k keys = true →
  Forall (λ k, unsafe_key k = false ∧ k ≠ "length") (k :: keys).
Proof.
  revert d k. induction keys as [|k' keys IH]; intros d k;
    cbn [follows]; intros [[Hk _]%andb_true_iff Hrest]%andb_true_iff;
    apply plain_key_inv in Hk.
  - constructor; [done|constructor].
  - constructor; [done|]. by eapply IH.
Qed.

(** An assignment on the way of such a path goes through. *)
Lemma assignProp_follows (keys : list string) (d : value) (k : string)
    (x : value) :
  isObject d = true → follows d k keys = true →
  ∃ d', assignProp d k x = Ok d'.
Proof.
  intros Hobj Hfollows.
  assert (plain_key k = true
          ∧ match d with
            | VArr _ =>
                match isIndex k with
                | Some i => (i <? 2 ^ 32 - 1)%N
                | None => false
                end
            | _ => true
            end = true) as [Hk Harr].
  { destruct keys; cbn [follows] in Hfollows;
      by apply andb_true_iff in Hfollows as [[? ?]%andb_true_iff _]. }
  apply plain_key_inv in Hk as [_ Hl]. apply String.eqb_neq in Hl.
  destruct d as [| | | | |l|l]; try done; cbn [assignProp].
  - rewrite Hl. destruct (isIndex k) as [i|]; [|done]. rewrite Harr. eauto.
  - eauto.
Qed.

(** lodash's [set] goes through on a path it can follow. *)
Lemma setIn_follows (keys : list string) (d : value) (k : string)
    (x : value) :
  isObject d = true → follows d k keys = true →
  ∃ d', setIn d k keys x = Ok d'.
Proof.
  revert d k. induction keys as [|k' keys IH]; intros d k Hobj Hfollows.
  - destruct (assignProp_follows [] d k x Hobj Hfollows) as [d' Hd'].
    cbn [setIn]. destruct (unsafe_key k); eauto.
  - change (setIn d k (k' :: keys) x)
      with (if unsafe_key k then Ok d
            else
              let objValue := getProp d k in
              let newValue :=
                if isObject objValue then objValue
                else match isIndex k' with
                     | Some _ => VArr []
                     | None => VObj []
                     end in
              match assignProp d k newValue with
              | Throw e => Throw e
              | Ok _ =>
                  match setIn newValue k' keys x with
                  | Throw e => Throw e
                  | Ok nested => assignProp d k nested
                  end
              end).
    destruct (unsafe_key k); [eauto|]. cbv zeta.
    set (newValue := if isObject (getProp d k) then getProp d k
                     else match isIndex k' with
                          | Some _ => VArr []
                          | None => VObj []
                          end).
    assert (isObject newValue = true) as Hnew.
    { unfold newValue. destruct (isObject (getProp d k)) eqn:E; [done|].
      by destruct (isIndex k'). }
    destruct (assignProp_follows (k' :: keys) d k newValue Hobj Hfollows)
      as [d1 ->].
    assert (follows newValue k' keys = true) as Hrest.
    { cbn [follows] in Hfollows.
      by apply andb_true_iff in Hfollows as [_ ?]. }
    destruct (IH newValue k' Hnew Hrest) as [nested ->].
    by apply (assignProp_follows (k' :: keys)).
Qed.

Section set_along.
Context `{Host} (cwd : path) (o : DBOptions).

(** What the two readers find in a document that has just been written. *)
Lemma read_back (k : string) (e : value) (p : PropertyPath) (fs : FS) :
  let fs' := <[JsonDB.getPath cwd o k := File (Text e)]> fs in
  JsonDB.get cwd o (VStr k) (Some p) fs' = (fs', Ok (Plain (_get e p)))
  ∧ (proxy o = false ∨ isObject e = true →
     JsonDB.has cwd o (VStr k) (Some p) fs' = (fs', Ok (_has e p))).
Proof.
  intros fs'.
  assert (fs' !! JsonDB.getPath cwd o (JsonDB.toString (VStr k))
          = Some (File (Text e))) as Hfile by apply lookup_insert_eq.
  split.
  - by rewrite (get_existing cwd o (VStr k) (Some p) e fs' eq_refl Hfile).
  - intros Hwrap. unfold JsonDB.has. cbn [isNil JsonDB.toString].
    pose proof (get_existing cwd o (VStr k) None e fs' eq_refl Hfile)
      as Hget.
    rewrite wrap_ok in Hget by done.
    rewrite (bind_ok _ _ _ _ _ Hget). by destruct (proxy o).
Qed.

(** [set] with a path it can follow, on a key that stores a document: the
    value is put at the path, the text of the document replaces the file,
    and the path then leads to the value as JSON text keeps it. *)
Lemma set_along (k : string) (x d : value) (p : PropertyPath) (fs : FS) :
  stored cwd o k fs = Some d →
  settable d p = true →
  ∃ d',
    _set d p x = Ok d'
    ∧ isObject d' = true
    ∧ _get d' p = x
    ∧ JsonDB.set cwd o (VStr k) x (Some p) fs
      = (<[JsonDB.getPath cwd o k := File (Text (reparse d'))]> fs,
         Ok (if proxy o then Proxy d' (JsonDB.getPath cwd o k)
             else Plain d'))
    ∧ (x ≠ VUndef →
       _get (reparse d') p = reparse x ∧ _has (reparse d') p = true).
Proof.
  intros Hd [Hobj Hfollows]%andb_true_iff.
  assert (isNil d = false) as Hnil by (by destruct d).
  destruct p as [k0 keys]. cbn [first_key more_keys] in Hfollows.
  destruct (setIn_follows keys d k0 x Hobj Hfollows) as [d' Hset].
  pose proof (follows_keys keys d k0 Hfollows) as Hkeys.
  assert (_set d (Keys k0 keys) x = Ok d') as Hset'
    by (unfold _set; by rewrite Hobj).
  pose proof (setIn_isObject _ _ _ _ _ Hobj Hset) as Hobj'.
  pose proof (baseGet_setIn keys d d' k0 x Hobj Hkeys Hset) as Hget.
  exists d'. split; [done|]. split; [done|]. split; [done|]. split.
  - rewrite (set_at cwd o k x d d' (Keys k0 keys) fs Hd);
      [|by right|by rewrite Hnil].
    by rewrite wrap_ok by (by right).
  - intros Hx.
    assert (_get (reparse d') (Keys k0 keys) = reparse x) as Hfound.
    { unfold _get. apply baseGet_reparse; [|done|done].
      eapply Forall_impl; [exact Hkeys|]. by intros ? [_ ?]. }
    split; [done|]. unfold _has. cbn [first_key more_keys].
    apply baseGet_hasPath. unfold _get, castPath in Hfound.
    cbn [first_key more_keys] in Hfound. rewrite Hfound.
    apply reparse_defined.
Qed.

End set_along.

(** ** The result of [math] *)

(** A closed equation between an evaluation of the model and its result
    is settled by running the model. *)
Ltac evaluated :=
  lazymatch goal with
  | |- ?l = ?r => exact (@eq_refl _ r <: l = r)
  end.




(** ** C3: [ensure] and the clone level *)

Section ensure_alias.
Context `{Host} (cwd : path) (o : DBOptions).

(** X24. With a path, [ensure] makes no clone, whatever the clone level:
    the heap is as it was, and a value handed back that is not read from the
    file is the default itself. *)
Lemma ensure_at_path_makes_no_clone (key : value)
    (defaultValue : Aliasing.ref_value) (p : PropertyPath)
    (h h' : Aliasing.heap) (r : Aliasing.returned) (fs fs' : FS) :
  Aliasing.ensure cwd o key defaultValue (Some p) h fs = (fs', Ok (h', r)) →
  h' = h ∧ (r = Aliasing.Given defaultValue ∨ ∃ doc, r = Aliasing.Fresh doc).
Proof.
  unfold Aliasing.ensure. destruct (Aliasing.is_nil defaultValue).
  { by intros [_ ?]%throw_inv. }
  intros [(fs1 & b & _ & Hrun)|(e & _ & ?)]%bind_inv; [|done].
  destruct b.
  - apply bind_inv in Hrun as [(fs2 & doc & _ & Hret)|(e & _ & ?)]; [|done].
    apply ret_inv in Hret as [_ [= -> ->]]. eauto.
  - apply bind_inv in Hrun as [(fs2 & doc & _ & Hret)|(e & _ & ?)]; [|done].
    apply ret_inv in Hret as [_ [= -> ->]]. eauto.
Qed.

End ensure_alias.

(** C3. With a path, [ensure] stores the default without cloning it, at
    every clone level: [this.clone] is called on the branch without a path
    only.  On an empty data directory and with the clone level [deep],
    [ensure "k" d "a"] allocates nothing and hands back [d] itself, so a
    later change of [d] by the caller shows in the value [ensure] returned,
    whereas [ensure "k" d] hands back a new object that such a change
    leaves alone.  What is on disk is JSON text in both cases.  And when
    the document is a number, [ensure] with a path stores nothing at all:
    lodash's [set] leaves a document that is not an object as it is. *)
Theorem ensure_with_path_skips_the_clone :
  let h := [Aliasing.OObj [("x", Aliasing.RNum 1)]] in
  let d := Aliasing.RRef 0 in
  Aliasing.ensure (H := example_host) app default_options (VStr "k") d
    (Some (Keys "a" [])) h empty_disk
  = (disk_with (Text (VObj [("a", VObj [("x", VNum 1)])])),
     Ok (h, Aliasing.Given d))
  ∧ Aliasing.content_of (Aliasing.mutate h 0 "x" (Aliasing.RNum 2)) d
    = Some (VObj [("x", VNum 2)])
  ∧ Aliasing.ensure (H := example_host) app default_options (VStr "k") d
      None h empty_disk
    = (disk_with (Text (VObj [("x", VNum 1)])),
       Ok (h ++ [Aliasing.OObj [("x", Aliasing.RNum 1)]],
           Aliasing.Given (Aliasing.RRef 1)))%list
  ∧ Aliasing.content_of
      (Aliasing.mutate (h ++ [Aliasing.OObj [("x", Aliasing.RNum 1)]])%list
         0 "x" (Aliasing.RNum 2))
      (Aliasing.RRef 1)
    = Some (VObj [("x", VNum 1)])
  ∧ JsonDB.ensure (H := example_host) app default_options (VStr "k")
      (VNum 1) (Some (Keys "a" [])) (disk_with (Text (VNum 5)))
    = (disk_with (Text (VNum 5)), Ok (Plain (VNum 1)))
  ∧ JsonDB.get (H := example_host) app default_options (VStr "k")
      (Some (Keys "a" [])) (disk_with (Text (VNum 5)))
    = (disk_with (Text (VNum 5)), Ok (Plain VUndef)).
Proof. cbv zeta. repeat split; vm_compute; reflexivity. Qed.

(** ** [ensure] where nothing is stored yet *)

Section provision.
Context `{Host} (cwd : path) (o : DBOptions).

(** Without a path, on a key that has no file: the default is written as
    the document of the key and handed back. *)
Lemma ensure_provisions (k : string) (d : value) (fs fs1 : FS) (h0 : handle) :
  isNil d = false →
  fs !! JsonDB.getPath cwd o k = None →
  JsonDB.get cwd o (VStr k) None fs = (fs1, Ok h0) →
  proxy o = false ∨ isObject d = true →
  JsonDB.ensure cwd o (VStr k) d None fs
  = (<[JsonDB.getPath cwd o k := File (Text (reparse d))]> fs1, Ok (Plain d)).
Proof.
  intros Hd Hfile Hget Hwrap.
  assert (d ≠ VUndef) as Hdef by (by destruct d).
  pose proof (set_whole cwd o k d fs fs1 h0 Hget Hdef) as Hset.
  cbv zeta in Hset. rewrite wrap_ok in Hset by done.
  unfold JsonDB.ensure, JsonDB.has, existsSync. rewrite Hd.
  cbn [isNil JsonDB.toString].
  pose proof (getPath_not_root cwd o k) as Hroot.
  assert (JsonDB.clone o d = d) as Hclone
    by (unfold JsonDB.clone; by destruct (cloneLevel o)).
  run. rewrite Hclone.
  destruct (JsonDB.getPath cwd o k) as [|s q] eqn:Hp; [done|].
  rewrite bool_decide_eq_false_2 by (rewrite Hfile; by intros [? ?]).
  by rewrite Hset.
Qed.

(** With a path the document does not have: the default is put at the
    path with lodash's [set], uncloned, and handed back. *)
Lemma ensure_provisions_at (k : string) (x d d' : value) (p : PropertyPath)
    (fs : FS) :
  isNil x = false →
  stored cwd o k fs = Some d →
  _has d p = false →
  proxy o = false ∨ isObject d = true →
  _set (if isNil d then VObj [] else d) p x = Ok d' →
  JsonDB.ensure cwd o (VStr k) x (Some p) fs
  = (<[JsonDB.getPath cwd o k := File (Text (reparse d'))]> fs, Ok (Plain x)).
Proof.
  intros Hx Hd Hhas Hwrap Hset.
  pose proof (set_at cwd o k x d d' p fs Hd Hwrap Hset) as Hrun.
  assert (proxy o = false ∨ isObject d' = true) as Hwrap'.
  { destruct Hwrap as [?|Hobj]; [by left|]. right.
    unfold _set in Hset.
    assert (isNil d = false) as Hnil by (by destruct d).
    rewrite Hnil, Hobj in Hset. by eapply setIn_isObject. }
  rewrite wrap_ok in Hrun by done.
  unfold stored in Hd.
  destruct (fs !! JsonDB.getPath cwd o k) as [[[d0|]|]|] eqn:Hfile;
    try done. injection Hd as ->.
  pose proof (get_existing cwd o (VStr k) None d fs eq_refl Hfile) as Hget.
  cbn [JsonDB.toString] in Hget. rewrite wrap_ok in Hget by done.
  unfold JsonDB.ensure, JsonDB.has. rewrite Hx. cbn [isNil JsonDB.toString].
  run. rewrite Hget.
  assert (target_of (if proxy o then Proxy d (JsonDB.getPath cwd o k)
                     else Plain d) = d) as -> by (by destruct (proxy o)).
  by rewrite Hhas, Hrun.
Qed.

End provision.

(** ** Clones in the heap *)

Module AliasingFacts.
Import Aliasing.
Local Open Scope nat_scope.
Local Open Scope list_scope.

Lemma mapM_agree {A B : Type} (f g : A → option B) (l : list A) :
  Forall (λ x, f x = g x) l → mapM f l = mapM g l.
Proof.
  induction 1 as [|x l Hx _ IH]; [done|]. cbn. by rewrite Hx, IH.
Qed.

Lemma mapM_transfer {A B : Type} (f g : A → option B) (l : list A)
    (k : list B) :
  (∀ x y, f x = Some y → g x = Some y) →
  mapM f l = Some k → mapM g l = Some k.
Proof.
  intros Hfg. rewrite !mapM_Some. intros Hl.
  eapply Forall2_impl; [exact Hl|exact Hfg].
Qed.

(** More fuel, or a longer heap, gives the same content. *)
Lemma content_upto_mono (f f' : nat) (h h2 : heap) (v : ref_value) (x : value) :
  content_upto f h v = Some x → f ≤ f' →
  content_upto f' (h ++ h2) v = Some x.
Proof.
  revert f' v x. induction f as [|f IH]; intros f' v x Hx Hle.
  - destruct v; try done; by destruct f'.
  - destruct v as [| | | | |r]; try (by destruct f').
    destruct f' as [|f']; [lia|]. cbn [content_upto] in *.
    destruct (h !! r) as [[l|l]|] eqn:Hr; [| |done];
      rewrite (lookup_app_l_Some _ _ _ _ Hr);
      apply fmap_Some in Hx as (xs & Hxs & ->); apply fmap_Some;
      exists xs; (split; [|done]);
      (eapply mapM_transfer; [|exact Hxs]).
    + intros y z Hy. apply IH; [done|lia].
    + intros [k y] z Hy. cbn in *.
      apply fmap_Some in Hy as (w & Hw & ->). apply fmap_Some.
      exists w. split; [|done]. apply IH; [done|lia].
Qed.

(** The content of a value above [n], in a heap closed above [n], takes
    no account of the objects below [n]. *)
Lemma content_upto_above (n f : nat) (h h' : heap) (v : ref_value) :
  closed_above n h → (∀ r, n ≤ r → h' !! r = h !! r) → above n v →
  content_upto f h' v = content_upto f h v.
Proof.
  intros Hclosed Hsame. revert v. induction f as [|f IH]; intros v Hv.
  - by destruct v.
  - destruct v as [| | | | |r]; try done. cbn [content_upto above] in *.
    rewrite (Hsame r Hv).
    destruct (h !! r) as [[l|l]|] eqn:Hr; [| |done];
      pose proof (Hclosed r _ Hv Hr) as Hm; cbn [members] in Hm; f_equal;
      apply mapM_agree.
    + eapply Forall_impl; [exact Hm|]. intros y Hy. by apply IH.
    + rewrite Forall_fmap in Hm. eapply Forall_impl; [exact Hm|].
      intros [k y] Hy. cbn in *. f_equal. by apply IH.
Qed.

Lemma above_le (n m : nat) (v : ref_value) : n ≤ m → above m v → above n v.
Proof. destruct v; cbn; try done. lia. Qed.

Section members.
Variable f : nat.
Variable clone : heap → ref_value → option (heap * ref_value).
Hypothesis clone_spec :
  ∀ h v h' v', clone h v = Some (h', v') →
    (∃ h2, h' = h ++ h2)
    ∧ above (length h) v'
    ∧ (∀ n, n ≤ length h → closed_above n h → closed_above n h')
    ∧ (∀ x, content_upto f h v = Some x → content_upto f h' v' = Some x).

Lemma clone_elems_spec (l : list ref_value) :
  ∀ h h' l', clone_elems clone l h = Some (h', l') →
    (∃ h2, h' = h ++ h2)
    ∧ Forall (above (length h)) l'
    ∧ (∀ n, n ≤ length h → closed_above n h → closed_above n h')
    ∧ (∀ xs, mapM (content_upto f h) l = Some xs →
             mapM (content_upto f h') l' = Some xs).
Proof.
  induction l as [|x l IH]; intros h h' l' Hrun; cbn [clone_elems] in Hrun.
  { injection Hrun as <- <-. split; [by exists []; rewrite app_nil_r|].
    by repeat split. }
  destruct (clone h x) as [[h1 x']|] eqn:Hx; [|done].
  destruct (clone_elems clone l h1) as [[h2 l'']|] eqn:Hl; [|done].
  injection Hrun as <- <-.
  destruct (clone_spec _ _ _ _ Hx) as ([a ->] & Hab & Hcl & Hco).
  destruct (IH _ _ _ Hl) as ([b ->] & Habs & Hcls & Hcos).
  rewrite length_app in *.
  split; [exists (a ++ b); by rewrite app_assoc|]. split; [|split].
  - constructor; [done|].
    eapply Forall_impl; [exact Habs|]. intros y. apply above_le. lia.
  - intros n Hn Hc. apply Hcls; [lia|]. by apply Hcl.
  - intros xs Hxs. cbn [mapM] in *.
    destruct (content_upto f h x) as [y|] eqn:Hy; [|done].
    destruct (mapM (content_upto f h) l) as [ys|] eqn:Hys; [|done].
    cbn in Hxs. injection Hxs as <-.
    rewrite (content_upto_mono f f _ b _ _ (Hco _ eq_refl)) by done.
    erewrite Hcos; [done|].
    eapply mapM_transfer; [|exact Hys].
    intros z w Hz. by apply (content_upto_mono f f).
Qed.

Lemma clone_fields_spec (l : list (string * ref_value)) :
  ∀ h h' l', clone_fields clone l h = Some (h', l') →
    (∃ h2, h' = h ++ h2)
    ∧ Forall (above (length h)) l'.*2
    ∧ (∀ n, n ≤ length h → closed_above n h → closed_above n h')
    ∧ (∀ xs,
         mapM (λ kx : string * ref_value,
                 pair kx.1 <$> content_upto f h kx.2) l = Some xs →
         mapM (λ kx : string * ref_value,
                 pair kx.1 <$> content_upto f h' kx.2) l' = Some xs).
Proof.
  induction l as [|[k x] l IH]; intros h h' l' Hrun;
    cbn [clone_fields] in Hrun.
  { injection Hrun as <- <-. split; [by exists []; rewrite app_nil_r|].
    by repeat split. }
  destruct (clone h x) as [[h1 x']|] eqn:Hx; [|done].
  destruct (clone_fields clone l h1) as [[h2 l'']|] eqn:Hl; [|done].
  injection Hrun as <- <-.
  destruct (clone_spec _ _ _ _ Hx) as ([a ->] & Hab & Hcl & Hco).
  destruct (IH _ _ _ Hl) as ([b ->] & Habs & Hcls & Hcos).
  rewrite length_app in *.
  split; [exists (a ++ b); by rewrite app_assoc|]. split; [|split].
  - cbn. constructor; [done|].
    eapply Forall_impl; [exact Habs|]. intros y. apply above_le. lia.
  - intros n Hn Hc. apply Hcls; [lia|]. by apply Hcl.
  - intros xs Hxs. cbn [mapM fst snd] in *.
    destruct (content_upto f h x) as [y|] eqn:Hy; [|done].
    cbn [fmap option_fmap option_map mbind option_bind] in Hxs.
    destruct (mapM (λ kx : string * ref_value,
                      pair kx.1 <$> content_upto f h kx.2) l)
      as [ys|] eqn:Hys; cbn in Hxs; [|done].
    injection Hxs as <-.
    rewrite (content_upto_mono f f _ b _ _ (Hco _ eq_refl)) by done.
    erewrite Hcos; [done|].
    eapply mapM_transfer; [|exact Hys].
    intros [k' z] w Hz. cbn in *.
    apply fmap_Some in Hz as (u & Hu & ->). apply fmap_Some.
    exists u. split; [|done]. by apply (content_upto_mono f f).
Qed.

End members.

Lemma closed_above_snoc (n : nat) (h : heap) (o : object) :
  closed_above n h → Forall (above n) (members o) →
  closed_above n (h ++ [o]).
Proof.
  intros Hc Ho r o' Hr Hlook.
  apply lookup_app_Some in Hlook as [Hlook|[_ Hlook]]; [by eapply Hc|].
  destruct (r - length h) as [|m]; [|done]. injection Hlook as <-. done.
Qed.

(** A deep clone is made of new objects only, which refer to new objects
    only, and it has the content of what was cloned. *)
Lemma cloneDeep_upto_spec (f : nat) :
  ∀ h v h' v', cloneDeep_upto f h v = Some (h', v') →
    (∃ h2, h' = h ++ h2)
    ∧ above (length h) v'
    ∧ (∀ n, n ≤ length h → closed_above n h → closed_above n h')
    ∧ (∀ x, content_upto f h v = Some x → content_upto f h' v' = Some x).
Proof.
  assert (∀ h v f', v = RUndef ∨ v = RNull ∨ (∃ b, v = RBool b)
                    ∨ (∃ n, v = RNum n) ∨ (∃ s, v = RStr s) →
            (∃ h2, h = h ++ h2)
            ∧ above (length h) v
            ∧ (∀ n, n ≤ length h → closed_above n h → closed_above n h)
            ∧ (∀ x, content_upto f' h v = Some x →
                    content_upto f' h v = Some x)) as Hprim.
  { intros h v f' Hv. split; [by exists []; rewrite app_nil_r|].
    split; [|done]. by destruct Hv as [->|[->|[[? ->]|[[? ->]|[? ->]]]]]. }
  induction f as [|f IH]; intros h v h' v' Hrun.
  - destruct v; try done; injection Hrun as <- <-; apply Hprim; eauto 10.
  - destruct v as [| | | | |r];
      try (injection Hrun as <- <-; apply Hprim; eauto 10).
    cbn [cloneDeep_upto] in Hrun.
    destruct (h !! r) as [[l|l]|] eqn:Hr; [| |done].
    + destruct (clone_elems _ l h) as [[h1 l']|] eqn:Hl; [|done].
      injection Hrun as <- <-.
      destruct (clone_elems_spec f _ IH _ _ _ _ Hl)
        as ([a ->] & Hab & Hcl & Hco).
      split; [exists (a ++ [OArr l']); by rewrite app_assoc|].
      split; [cbn; rewrite length_app; lia|]. split.
      * intros n Hn Hc. apply closed_above_snoc; [by apply Hcl|].
        cbn [members]. eapply Forall_impl; [exact Hab|].
        intros y. by apply above_le.
      * intros x Hx. cbn [content_upto] in *. rewrite Hr in Hx.
        rewrite lookup_app_r, Nat.sub_diag by done. cbn [lookup list_lookup].
        apply fmap_Some in Hx as (xs & Hxs & ->). apply fmap_Some.
        exists xs. split; [|done].
        eapply mapM_transfer; [|by apply Hco].
        intros y z Hy. by apply (content_upto_mono f f).
    + destruct (clone_fields _ l h) as [[h1 l']|] eqn:Hl; [|done].
      injection Hrun as <- <-.
      destruct (clone_fields_spec f _ IH _ _ _ _ Hl)
        as ([a ->] & Hab & Hcl & Hco).
      split; [exists (a ++ [OObj l']); by rewrite app_assoc|].
      split; [cbn; rewrite length_app; lia|]. split.
      * intros n Hn Hc. apply closed_above_snoc; [by apply Hcl|].
        cbn [members]. eapply Forall_impl; [exact Hab|].
        intros y. by apply above_le.
      * intros x Hx. cbn [content_upto] in *. rewrite Hr in Hx.
        rewrite lookup_app_r, Nat.sub_diag by done. cbn [lookup list_lookup].
        apply fmap_Some in Hx as (xs & Hxs & ->). apply fmap_Some.
        exists xs. split; [|done].
        eapply mapM_transfer; [|by apply Hco].
        intros [k y] z Hy. cbn in *.
        apply fmap_Some in Hy as (u & Hu & ->). apply fmap_Some.
        exists u. split; [|done]. by apply (content_upto_mono f f).
Qed.

Lemma closed_above_length (h : heap) : closed_above (length h) h.
Proof.
  intros r o Hr Hlook. apply lookup_lt_Some in Hlook. lia.
Qed.

Section clone.
Context (o : DBOptions).


(** X25. At the clone level [deep], what the caller does afterwards to an
    object that was there before the clone does not show in the clone. *)
Lemma deep_clone_is_apart (h h' : heap) (d c x : ref_value) (r : nat)
    (k : string) :
  cloneLevel o = deep →
  clone o h d = Some (h', c) →
  r < length h →
  content_of (mutate h' r k x) c = content_of h' c.
Proof.
  unfold clone. intros -> Hrun Hr. unfold cloneDeep in Hrun.
  destruct (cloneDeep_upto_spec _ _ _ _ _ Hrun) as ([a ->] & Hab & Hcl & _).
  assert (length (mutate (h ++ a) r k x) = length (h ++ a)
          ∧ ∀ q, length h ≤ q → mutate (h ++ a) r k x !! q = (h ++ a) !! q)
    as [Hlen Hsame].
  { unfold mutate. destruct ((h ++ a) !! r) as [[l|l]|]; [| |done].
    - destruct (isIndex k); [|done].
      split; [apply length_insert|].
      intros q Hq. apply list_lookup_insert_ne. lia.
    - split; [apply length_insert|].
      intros q Hq. apply list_lookup_insert_ne. lia. }
  unfold content_of. rewrite Hlen.
  apply (content_upto_above (length h)); [|done|done].
  apply Hcl; [done|]. apply closed_above_length.
Qed.

End clone.

Section ensure.
Context `{Host} (cwd : path) (o : DBOptions).



End ensure.

End AliasingFacts.

(** * Further properties of the code *)


(** ** One key, one file *)

Lemma only_at_refl (p : path) (fs : FS) : only_at p fs fs.
Proof. intros q _. by left. Qed.

Lemma only_at_trans (p : path) (fs1 fs2 fs3 : FS) :
  only_at p fs1 fs2 → only_at p fs2 fs3 → only_at p fs1 fs3.
Proof.
  intros H12 H23 q Hq.
  destruct (H12 q Hq) as [E12|[E1 E2]], (H23 q Hq) as [E23|[E2' E3]].
  - left. congruence.
  - right. split; congruence.
  - right. split; congruence.
  - congruence.
Qed.

Lemma only_at_dirs (p : path) (fs fs' : FS) :
  (∀ q : path, fs' !! q = fs !! q ∨ (fs !! q = None ∧ fs' !! q = Some Dir)) →
  only_at p fs fs'.
Proof. intros Hdirs q _. apply Hdirs. Qed.

Lemma only_at_write (p : path) (data : option content) (fs fs' : FS)
    (r : result ()) :
  writeFileSync p data fs = (fs', r) → only_at p fs fs'.
Proof.
  destruct data as [c|]; [|intros [= <- _]; apply only_at_refl].
  intros [(_ & -> & _)|[-> _]]%write_inv; [|apply only_at_refl].
  intros q Hq. left. by apply lookup_insert_ne.
Qed.

Lemma only_at_read (p : path) (fs fs' : FS) (r : result value) :
  JsonDB.read_or_initialize p fs = (fs', r) → only_at p fs fs'.
Proof.
  unfold JsonDB.read_or_initialize, try_catch.
  destruct ((c ← readFileSync p;
             match JSON_parse c with
             | Some d => mret d
             | None => throw (SyntaxError "Unexpected token")
             end) fs) as [fs0 [d|e]] eqn:Htry.
  - intros [= <- _].
    assert (fs0 = fs) as ->; [|apply only_at_refl].
    revert Htry. unfold readFileSync. run.
    destruct (fs !! p) as [[c|]|]; try (by intros [= <- _]).
    destruct (JSON_parse c); by intros [= <- _].
  - assert (fs0 = fs) as ->.
    { revert Htry. unfold readFileSync. run.
      destruct (fs !! p) as [[c|]|]; try (by intros [= <- _]).
      destruct (JSON_parse c); by intros [= <- _]. }
    intros [(fs1 & u1 & Hdir & Hrun)|(e' & Hdir & _)]%bind_inv;
      pose proof (ensure_dir_inv _ _ _ _ Hdir) as Hdirs;
      [|by apply only_at_dirs].
    eapply only_at_trans; [by apply only_at_dirs|].
    apply bind_inv in Hrun as [(fs2 & u2 & Hw & Hret)|(e' & Hw & _)].
    + apply ret_inv in Hret as [-> _]. by eapply only_at_write.
    + by eapply only_at_write.
Qed.

Section frame.
Context `{Host} (cwd : path) (o : DBOptions).

Lemma only_at_wrap (d : value) (p : path) (fs fs' : FS) (r : result handle) :
  JsonDB.wrap o d p fs = (fs', r) → fs' = fs.
Proof. by intros [-> _]%wrap_inv. Qed.

(** [get] touches the file of its key only, and the handle it returns
    writes to that file. *)
Lemma only_at_get (key : value) (p : option PropertyPath) (fs fs' : FS)
    (r : result handle) :
  JsonDB.get cwd o key p fs = (fs', r) →
  only_at (JsonDB.getPath cwd o (JsonDB.toString key)) fs fs'
  ∧ ∀ t q, r = Ok (Proxy t q) →
           q = JsonDB.getPath cwd o (JsonDB.toString key).
Proof.
  unfold JsonDB.get. destruct (isNil key).
  { intros [-> ->]%ret_inv. split; [apply only_at_refl|done]. }
  intros [(fs1 & d & Hread & Hrun)|(e & Hread & ->)]%bind_inv;
    apply only_at_read in Hread; [|by split].
  destruct p as [p|].
  - apply ret_inv in Hrun as [-> ->]. by split.
  - apply wrap_inv in Hrun as [-> Hr]. split; [done|].
    intros t q ->.
    destruct Hr as [[_ ?]|[(_ & _ & ?)|(_ & _ & ?)]]; by simplify_eq.
Qed.

Lemma only_at_first_assignment (t : value) (q : path) (p : PropertyPath)
    (x : value) (fs fs' : FS) (r : result ()) :
  first_assignment (Proxy t q) p x fs = (fs', r) → only_at q fs fs'.
Proof.
  assert (∀ y (r' : result ()) fs1,
            (trap_set t q (first_key p) y;; mret ()) fs = (fs1, r') →
            only_at q fs fs1) as Htrap.
  { intros y r' fs1 [(fs2 & u & Htrap & Hret)|(e & Htrap & _)]%bind_inv.
    - apply ret_inv in Hret as [-> _]. unfold trap_set in Htrap.
      apply bind_inv in Htrap as [(fs3 & t' & [-> _]%lift_inv & Hw)|
                                  (e & _ & ?)]; [|done].
      apply bind_inv in Hw as [(fs4 & u' & Hw & Hret)|(e & _ & ?)]; [|done].
      apply ret_inv in Hret as [-> _]. by eapply only_at_write.
    - unfold trap_set in Htrap.
      apply bind_inv in Htrap as [(fs3 & t' & [-> _]%lift_inv & Hw)|
                                  (e' & [-> _]%lift_inv & _)];
        [|apply only_at_refl].
      apply bind_inv in Hw as [(fs4 & u' & Hw & Hret)|(e' & Hw & _)].
      + apply ret_inv in Hret as [-> _]. by eapply only_at_write.
      + by eapply only_at_write. }
  unfold first_assignment.
  destruct (unsafe_key (first_key p));
    [intros [-> _]%ret_inv; apply only_at_refl|].
  destruct (more_keys p) as [|k' keys].
  - destruct (ownProp t (first_key p)) as [y|];
      [destruct (eq_prim y x)|]; try apply Htrap.
    intros [-> _]%ret_inv; apply only_at_refl.
  - destruct (isObject (getProp t (first_key p))); [|apply Htrap].
    intros [-> _]%ret_inv; apply only_at_refl.
Qed.

Lemma only_at_set (key x : value) (p : option PropertyPath) (fs fs' : FS)
    (r : result handle) :
  JsonDB.set cwd o key x p fs = (fs', r) →
  only_at (JsonDB.getPath cwd o (JsonDB.toString key)) fs fs'.
Proof.
  unfold JsonDB.set. destruct (isNil key || negb (isString key)) eqn:Hkey.
  { intros [-> _]%throw_inv. apply only_at_refl. }
  assert (JsonDB.toString (VStr (JsonDB.toString key)) = JsonDB.toString key)
    as Hstr by done.
  intros [(fs1 & h & Hget & Hrun)|(e & Hget & _)]%bind_inv;
    apply only_at_get in Hget as [Hget Hpath]; rewrite Hstr in *; [|done].
  eapply only_at_trans; [done|].
  apply bind_inv in Hrun as [(fs2 & data & Hdata & Hrun)|(e & Hdata & _)].
  - assert (only_at (JsonDB.getPath cwd o (JsonDB.toString key)) fs1 fs2)
      as Hstep.
    { destruct p as [p|]; [|apply ret_inv in Hdata as [-> _];
                             apply only_at_refl].
      apply bind_inv in Hdata as [(fs3 & u & Hfirst & [-> _]%lift_inv)|
                                  (e & Hfirst & _)].
      - destruct h as [v|t q]; [apply ret_inv in Hfirst as [-> _];
                                apply only_at_refl|].
        rewrite <- (Hpath t q eq_refl). by eapply only_at_first_assignment.
      - destruct h as [v|t q]; [by apply ret_inv in Hfirst as [_ ?]|].
        rewrite <- (Hpath t q eq_refl). by eapply only_at_first_assignment. }
    eapply only_at_trans; [done|].
    apply bind_inv in Hrun as [(fs3 & u & Hw & Hwrap)|(e & Hw & _)].
    + apply only_at_wrap in Hwrap as ->. by eapply only_at_write.
    + by eapply only_at_write.
  - destruct p as [p|]; [|by apply ret_inv in Hdata as [_ ?]].
    apply bind_inv in Hdata as [(fs3 & u & Hfirst & [-> _]%lift_inv)|
                                (e' & Hfirst & _)].
    + destruct h as [v|t q]; [apply ret_inv in Hfirst as [-> _];
                              apply only_at_refl|].
      rewrite <- (Hpath t q eq_refl). by eapply only_at_first_assignment.
    + destruct h as [v|t q]; [by apply ret_inv in Hfirst as [_ ?]|].
      rewrite <- (Hpath t q eq_refl). by eapply only_at_first_assignment.
Qed.

End frame.

Section frame_calls.
Context `{Host} (cwd : path) (o : DBOptions).

Lemma only_at_has (key : value) (p : option PropertyPath) (fs fs' : FS)
    (r : result bool) :
  JsonDB.has cwd o key p fs = (fs', r) →
  only_at (JsonDB.getPath cwd o (JsonDB.toString key)) fs fs'.
Proof.
  unfold JsonDB.has. destruct (isNil key).
  { intros [-> _]%throw_inv. apply only_at_refl. }
  destruct p as [p|].
  - intros [(fs1 & h & Hget & Hret)|(e & Hget & _)]%bind_inv;
      apply only_at_get in Hget as [Hget _]; [|done].
    by apply ret_inv in Hret as [-> _].
  - intros [-> _]%exists_inv. apply only_at_refl.
Qed.

Lemma only_at_ensure (key d : value) (p : option PropertyPath) (fs fs' : FS)
    (r : result handle) :
  JsonDB.ensure cwd o key d p fs = (fs', r) →
  only_at (JsonDB.getPath cwd o (JsonDB.toString key)) fs fs'.
Proof.
  unfold JsonDB.ensure. destruct (isNil d).
  { intros [-> _]%throw_inv. apply only_at_refl. }
  assert (∀ p' x v,
            (b ← JsonDB.has cwd o key p';
             if b : bool then JsonDB.get cwd o key p'
             else JsonDB.set cwd o key x p';; mret v) fs = (fs', r) →
            only_at (JsonDB.getPath cwd o (JsonDB.toString key)) fs fs')
    as Hboth.
  { intros p' x v [(fs1 & b & Hhas & Hrun)|(e & Hhas & _)]%bind_inv;
      apply only_at_has in Hhas; [|done].
    eapply only_at_trans; [done|]. destruct b.
    - by apply only_at_get in Hrun as [? _].
    - apply bind_inv in Hrun as [(fs2 & h & Hset & Hret)|(e & Hset & _)];
        apply only_at_set in Hset; [|done].
      by apply ret_inv in Hret as [-> _]. }
  destruct p as [p|]; apply Hboth.
Qed.

Lemma only_at_push (key x : value) (p : option PropertyPath) (fs fs' : FS)
    (r : result handle) :
  JsonDB.push cwd o key x p fs = (fs', r) →
  only_at (JsonDB.getPath cwd o (JsonDB.toString key)) fs fs'.
Proof.
  unfold JsonDB.push.
  intros [(fs1 & h & Hget & Hrun)|(e & Hget & _)]%bind_inv;
    apply only_at_get in Hget as [Hget Hpath]; [|done].
  eapply only_at_trans; [done|].
  assert (∀ fs2 (r' : result value),
            match p with
            | Some p =>
                propValue ← lift (JsonDB.array_push (_get (target_of h) p) x);
                lift (_set (storeAt (target_of h) (first_key p) (more_keys p)
                              propValue) p propValue)
            | None => JsonDB.push_onto h x
            end fs1 = (fs2, r') →
            only_at (JsonDB.getPath cwd o (JsonDB.toString key)) fs1 fs2)
    as Hdata.
  { intros fs2 r'. destruct p as [p|].
    - intros [(fs3 & a & [-> _]%lift_inv & [-> _]%lift_inv)|
              (e & [-> _]%lift_inv & _)]%bind_inv; apply only_at_refl.
    - unfold JsonDB.push_onto.
      intros [(fs3 & a & [-> _]%lift_inv & Hw)|
              (e & [-> _]%lift_inv & _)]%bind_inv; [|apply only_at_refl].
      destruct h as [v|t q]; [apply ret_inv in Hw as [-> _];
                              apply only_at_refl|].
      rewrite <- (Hpath t q eq_refl).
      apply bind_inv in Hw as [(fs4 & u & Hw & Hret)|(e & Hw & _)].
      + apply ret_inv in Hret as [-> _]. by eapply only_at_write.
      + by eapply only_at_write. }
  apply bind_inv in Hrun as [(fs2 & data & Hd & Hrun)|(e & Hd & _)];
    apply Hdata in Hd; [|done].
  eapply only_at_trans; [done|].
  apply bind_inv in Hrun as [(fs3 & h' & Hset & Hwrap)|(e & Hset & _)];
    apply only_at_set in Hset; [|done].
  by apply only_at_wrap in Hwrap as ->.
Qed.

Lemma only_at_math (key : value) (op : string) (x : value)
    (p : option PropertyPath) (u : float) (fs fs' : FS) (r : result handle) :
  JsonDB.math cwd o key op x p u fs = (fs', r) →
  only_at (JsonDB.getPath cwd o (JsonDB.toString key)) fs fs'.
Proof.
  unfold JsonDB.math.
  intros [(fs1 & h & Hget & Hrun)|(e & Hget & _)]%bind_inv;
    apply only_at_get in Hget as [Hget _]; [|done].
  eapply only_at_trans; [done|].
  apply bind_inv in Hrun as [(fs2 & v & [-> _]%lift_inv & Hset)|
                             (e & [-> _]%lift_inv & _)];
    [|apply only_at_refl].
  by eapply only_at_set.
Qed.

End frame_calls.

(** X1. A call of any of the six methods, however it ends and whatever the
    options, touches one file only, the file of its key: at every other
    path the file system is as it was, or a directory was made where there
    was nothing.  So no call changes or removes a file other than the one
    of its key.  This is about files, not keys: two keys can have the same
    file, as [a/../k] and [k] do. *)
Theorem a_call_touches_the_file_of_its_key_only `{Host} (cwd : path)
    (o : DBOptions) (c : operation) (fs fs' : FS) (r : result outcome) :
  perform cwd o c fs = (fs', r) →
  only_at (file_of cwd o c) fs fs'
  ∧ ∀ (q : path) (n : node),
      q ≠ file_of cwd o c → fs !! q = Some n → fs' !! q = Some n.
Proof.
  intros Hrun.
  assert (only_at (file_of cwd o c) fs fs') as Honly.
  { unfold file_of. destruct c; cbn [perform key_of] in *;
      apply bind_inv in Hrun as [(fs1 & a & Hrun & [-> _]%ret_inv)|
                                 (e & Hrun & _)].
    all: first [ by apply only_at_get in Hrun as [? _]
               | by eapply only_at_set | by eapply only_at_has
               | by eapply only_at_ensure | by eapply only_at_push
               | by eapply only_at_math ]. }
  split; [done|]. intros q n Hq Hn.
  destruct (Honly q Hq) as [E|[E _]]; congruence.
Qed.

Lemma a_call_touches_the_file_of_its_key_only_witness :
  perform (H := example_host) app default_options
    (CallSet (VStr "a") (VNum 1) None) (disk_with (Text (VNum 10)))
  = (<[ ["app"; "data"; "a.json"] := File (Text (VNum 1)) ]>
       (disk_with (Text (VNum 10))),
     Ok (Handle (Plain (VNum 1))))
  ∧ <[ ["app"; "data"; "a.json"] := File (Text (VNum 1)) ]>
      (disk_with (Text (VNum 10))) !! ["app"; "data"; "k.json"]
    = Some (File (Text (VNum 10))).
Proof.
  split; [evaluated|].
  apply (a_call_touches_the_file_of_its_key_only (H := example_host) app
           default_options (CallSet (VStr "a") (VNum 1) None)
           (disk_with (Text (VNum 10))) _ (Ok (Handle (Plain (VNum 1))))).
  - evaluated.
  - vm_compute; discriminate.
  - evaluated.
Defined.

(** ** Reading *)

(** X2. [get] and [has], however they end, leave every JSON document on
    disk as it was, under every key: the recovery in [get] replaces only
    what is no JSON text. *)
Theorem reading_keeps_every_document `{Host} (cwd : path) (o : DBOptions)
    (key : value) (p : option PropertyPath) (fs fs' : FS) (q : path)
    (d : value) :
  (∃ r, JsonDB.get cwd o key p fs = (fs', r))
  ∨ (∃ r, JsonDB.has cwd o key p fs = (fs', r)) →
  fs !! q = Some (File (Text d)) → fs' !! q = Some (File (Text d)).
Proof.
  intros [[r Hrun]|[r Hrun]]; apply recovered_document.
  - by eapply get_recovered.
  - by eapply has_inv.
Qed.

Lemma reading_keeps_every_document_witness :
  JsonDB.get (H := example_host) app default_options (VStr "a") None
    (disk_with (Text (VNum 10)))
  = (<[ ["app"; "data"; "a.json"] := File (Text (VObj [])) ]>
       (disk_with (Text (VNum 10))),
     Ok (Plain (VObj [])))
  ∧ <[ ["app"; "data"; "a.json"] := File (Text (VObj [])) ]>
      (disk_with (Text (VNum 10))) !! ["app"; "data"; "k.json"]
    = Some (File (Text (VNum 10))).
Proof.
  split; [evaluated|].
  apply (reading_keeps_every_document (H := example_host) app default_options
           (VStr "a") None (disk_with (Text (VNum 10)))).
  - left. exists (Ok (Plain (VObj []))). evaluated.
  - evaluated.
Defined.

(** X3. [get] is idempotent: a call that returns can be repeated at once,
    and the second call returns the same and writes nothing.  On a key
    never seen before this is the empty document both times, from one
    file. *)
Theorem get_twice `{Host} (cwd : path) (o : DBOptions) (key : value)
    (p : option PropertyPath) (fs fs1 : FS) (h : handle) :
  JsonDB.get cwd o key p fs = (fs1, Ok h) →
  JsonDB.get cwd o key p fs1 = (fs1, Ok h).
Proof.
  destruct (isNil key) eqn:Hnil.
  { rewrite !get_nil by done. by intros [= <- <-]. }
  intros Hget. apply get_inv in Hget as [_ Hget].
  destruct (Hget Hnil h eq_refl) as (d & Hfile & _ & Hh).
  rewrite (get_existing cwd o key p d fs1 Hnil Hfile).
  destruct p as [p|]; [by rewrite Hh|done].
Qed.

Lemma get_twice_witness :
  JsonDB.get (H := example_host) app default_options (VStr "k") None
    empty_disk
  = (disk_with (Text (VObj [])), Ok (Plain (VObj [])))
  ∧ JsonDB.get (H := example_host) app default_options (VStr "k") None
      (disk_with (Text (VObj [])))
    = (disk_with (Text (VObj [])), Ok (Plain (VObj []))).
Proof.
  split; [evaluated|].
  apply (get_twice (H := example_host) app default_options (VStr "k") None
           empty_disk).
  evaluated.
Defined.

(** X4. After [get] without a path has returned, [has] finds the key, and
    with a path it answers for the document [get] returned; neither call
    writes. *)
Theorem has_after_get `{Host} (cwd : path) (o : DBOptions) (key : value)
    (fs fs1 : FS) (h : handle) :
  isNil key = false →
  JsonDB.get cwd o key None fs = (fs1, Ok h) →
  JsonDB.has cwd o key None fs1 = (fs1, Ok true)
  ∧ ∀ p, JsonDB.has cwd o key (Some p) fs1
         = (fs1, Ok (_has (target_of h) p)).
Proof.
  intros Hnil Hget. apply get_inv in Hget as [_ Hget].
  destruct (Hget Hnil h eq_refl) as (d & Hfile & _ & Hh). cbv zeta in *.
  split.
  - unfold JsonDB.has, existsSync. rewrite Hnil.
    pose proof (getPath_not_root cwd o (JsonDB.toString key)) as Hroot.
    destruct (JsonDB.getPath cwd o (JsonDB.toString key)) as [|s q];
      [done|].
    by rewrite bool_decide_eq_true_2 by (rewrite Hfile; eauto).
  - intros p. unfold JsonDB.has. rewrite Hnil.
    pose proof (get_existing cwd o (VStr (JsonDB.toString key)) None d fs1
                  eq_refl Hfile) as Hget'.
    cbn [JsonDB.toString] in Hget'. rewrite Hh in Hget'.
    run. rewrite Hget'. apply wrap_target in Hh as [_ ->]. done.
Qed.

Lemma has_after_get_witness :
  isNil (VStr "k") = false
  ∧ JsonDB.has (H := example_host) app default_options (VStr "k") None
      empty_disk
    = (empty_disk, Ok false)
  ∧ JsonDB.has (H := example_host) app default_options (VStr "k") None
      (disk_with (Text (VObj [])))
    = (disk_with (Text (VObj [])), Ok true).
Proof.
  split; [reflexivity|]. split; [evaluated|].
  apply (has_after_get (H := example_host) app default_options (VStr "k")
           empty_disk (disk_with (Text (VObj []))) (Plain (VObj []))).
  - reflexivity.
  - evaluated.
Defined.

(** ** Keys and files *)

Lemma split_no_slash (s : string) :
  has_slash s = false → split "/" s = [s].
Proof.
  induction s as [|c s IH]; [done|]. cbn [has_slash split].
  intros [Hc Hs]%orb_false_iff. rewrite Hc, (IH Hs). done.
Qed.

Lemma has_slash_app (s t : string) :
  has_slash (s ++ t) = has_slash s || has_slash t.
Proof.
  induction s as [|c s IH]; [done|].
  change (String c s ++ t)%string with (String c (s ++ t)%string).
  cbn [has_slash]. by rewrite IH, orb_assoc.
Qed.

Lemma endsWith_app (suf s : string) : endsWith suf (s ++ suf) = true.
Proof.
  induction s as [|c s IH].
  - change (EmptyString ++ suf)%string with suf.
    destruct suf; cbn [endsWith]; by rewrite String.eqb_refl.
  - change (String c s ++ suf)%string with (String c (s ++ suf)%string).
    by apply endsWith_cons.
Qed.

Lemma string_length_app (s t : string) :
  String.length (s ++ t) = String.length s + String.length t.
Proof.
  induction s as [|c s IH]; [done|].
  change (String c s ++ t)%string with (String c (s ++ t)%string).
  cbn [String.length]. by rewrite IH.
Qed.

Lemma append_cancel (s t suf : string) :
  (s ++ suf = t ++ suf)%string → s = t.
Proof.
  revert t. induction s as [|c s IH]; intros [|c' t] E.
  - done.
  - apply (f_equal String.length) in E.
    rewrite !string_length_app in E. cbn [String.length] in E. lia.
  - apply (f_equal String.length) in E.
    rewrite !string_length_app in E. cbn [String.length] in E. lia.
  - change (String c (s ++ suf) = String c' (t ++ suf))%string in E.
    injection E as -> E. f_equal. by apply IH.
Qed.

(** The file of a key that has no slash sits in the data directory, under
    the key's own name. *)
Lemma getPath_plain (cwd : path) (o : DBOptions) (k : string) :
  has_slash k = false →
  JsonDB.getPath cwd o k
  = (resolve_onto cwd (dataDir o) ++ [(k ++ ".json")%string])%list.
Proof.
  intros Hk. unfold JsonDB.getPath, resolve. unfold resolve_onto at 1.
  assert (has_slash (k ++ ".json") = false) as Hk'
    by (by rewrite has_slash_app, Hk).
  rewrite (split_no_slash _ Hk'). cbn [fold_left].
  rewrite endsWith_json_segment by apply endsWith_app.
  destruct k as [|c k]; [done|].
  cbn [String.append startsWith_slash].
  cbn [has_slash] in Hk. apply orb_false_iff in Hk as [Hc _].
  destruct c as [[] [] [] [] [] [] [] []]; try done.
Qed.

(** X5. Keys without a slash have files of their own: the file of such a
    key is directly in the data directory, and two such keys with the same
    file are the same key. *)
Theorem plain_keys_have_files_of_their_own (cwd : path) (o : DBOptions)
    (k1 k2 : string) :
  has_slash k1 = false → has_slash k2 = false →
  JsonDB.getPath cwd o k1 = JsonDB.getPath cwd o k2 → k1 = k2.
Proof.
  intros H1 H2. rewrite !getPath_plain by done.
  intros [_ E]%app_inj_tail. by eapply append_cancel.
Qed.

Lemma plain_keys_have_files_of_their_own_witness :
  has_slash "k" = false
  ∧ JsonDB.getPath app default_options "k" = ["app"; "data"; "k.json"]
  ∧ JsonDB.getPath app default_options "a/../k" = ["app"; "data"; "k.json"]
  ∧ (JsonDB.getPath app default_options "k"
     = JsonDB.getPath app default_options "k" → "k" = "k").
Proof.
  split; [reflexivity|]. split; [reflexivity|]. split; [reflexivity|].
  apply (plain_keys_have_files_of_their_own app default_options "k" "k");
    reflexivity.
Defined.

(** ** The first access to a key *)

Section first_access.
Context `{Host} (cwd : path) (o : DBOptions).



End first_access.



(** ** Operators *)

(** X8. [mathOp] treats every word of the table [operations] as the symbol
    the table gives for it, whatever base and operand are; and every symbol
    of the exported table [Operations] is an operator [mathOp] knows: on
    numbers it gives a number, never [null]. *)
Theorem mathOp_agrees_with_the_tables `{Host} (name sym : string)
    (base opand : value) (b x u : float) :
  ((name, sym) ∈ operations →
   JsonDB.mathOp base name opand u = JsonDB.mathOp base sym opand u)
  ∧ ((name, sym) ∈ Operations →
     ∃ v, JsonDB.mathOp (VNum b) sym (VNum x) u = Ok (VNum v)).
Proof.
  split; intros Hin.
  - assert (Forall (λ row : string * string,
                      JsonDB.mathOp base row.1 opand u
                      = JsonDB.mathOp base row.2 opand u) operations) as Hall
      by (unfold operations; repeat constructor).
    rewrite Forall_forall in Hall. exact (Hall (name, sym) Hin).
  - assert (Forall (λ row : string * string,
                      ∃ v, JsonDB.mathOp (VNum b) row.2 (VNum x) u
                           = Ok (VNum v)) Operations) as Hall
      by (unfold Operations; repeat constructor; by eexists).
    rewrite Forall_forall in Hall. exact (Hall (name, sym) Hin).
Qed.

Lemma mathOp_agrees_with_the_tables_witness :
  ("modulo", "%") ∈ operations
  ∧ JsonDB.mathOp (H := example_host) (VNum 7) "modulo" (VNum 2) 0
    = JsonDB.mathOp (H := example_host) (VNum 7) "%" (VNum 2) 0.
Proof.
  split; [unfold operations; set_solver|].
  apply (mathOp_agrees_with_the_tables (H := example_host) "modulo" "%"
           (VNum 7) (VNum 2) 0 0 0).
  unfold operations; set_solver.
Defined.

(** An operator that is not in the table gives [null], whatever base and
    operand are. *)
Lemma mathOp_unknown `{Host} (op : string) (base opand : value) (u : float) :
  table_lookup u op = None → JsonDB.mathOp base op opand u = Ok VNull.
Proof.
  unfold JsonDB.mathOp, table_lookup, operator_table.
  cbn [List.find existsb fst snd].
  repeat match goal with
         | |- context [String.eqb op ?s] =>
             destruct (String.eqb op s);
             cbn [orb fmap option_fmap option_map snd]; [done|]
         end.
  done.
Qed.

Section overwrite.
Context `{Host} (cwd : path) (o : DBOptions).
Hypothesis proxy_off : proxy o = false.

(** [math], once [mathOp] has a result that takes no account of what is
    stored: the result is put at the addressed location. *)
Lemma math_overwrites (k op : string) (x r d d' : value)
    (p : option PropertyPath) (u : float) (fs : FS) :
  (∀ base, JsonDB.mathOp base op x u = Ok r) →
  r ≠ VUndef →
  stored cwd o k fs = Some d →
  match p with
  | Some p => _set (if isNil d then VObj [] else d) p r
  | None => Ok r
  end = Ok d' →
  JsonDB.math cwd o (VStr k) op x p u fs
  = (<[JsonDB.getPath cwd o k := File (Text (reparse d'))]> fs,
     Ok (Plain d')).
Proof.
  intros Hop Hr Hd Hput.
  pose proof Hd as Hfile. unfold stored in Hfile.
  destruct (fs !! JsonDB.getPath cwd o k) as [[[d0|]|]|] eqn:Hfile';
    try done. injection Hfile as ->.
  unfold JsonDB.math. destruct p as [p|].
  - pose proof (get_existing cwd o (VStr k) (Some p) d fs eq_refl Hfile')
      as Hget.
    pose proof (set_at cwd o k r d d' p fs Hd (or_introl proxy_off) Hput)
      as Hset.
    run. rewrite Hget. cbn [target_of]. rewrite Hop, Hset.
    by rewrite wrap_ok, proxy_off by (by left).
  - injection Hput as <-.
    pose proof (get_existing cwd o (VStr k) None d fs eq_refl Hfile')
      as Hget. cbn [JsonDB.toString] in Hget.
    rewrite wrap_ok, proxy_off in Hget by (by left).
    pose proof (set_whole cwd o k r fs fs _ Hget Hr) as Hset.
    cbv zeta in Hset.
    run. rewrite Hget. cbn [target_of]. rewrite Hop, Hset.
    by rewrite wrap_ok, proxy_off by (by left).
Qed.

End overwrite.

(** X9. [math] with an operator that is not in the table does not fail:
    with the [proxy] option off, on a key that stores a document, it puts
    [null] at the addressed location, over whatever was stored there,
    writes the text of the document it gets and hands the document back;
    [get] then returns [null] for the location.  The location is the
    whole document, or a path lodash's [set] can follow in a document
    that is an array or an object. *)
Theorem math_with_an_unknown_operator_stores_null `{Host} (cwd : path)
    (o : DBOptions) (k op : string) (x d : value)
    (p : option PropertyPath) (u : float) (fs : FS) :
  proxy o = false →
  table_lookup u op = None →
  stored cwd o k fs = Some d →
  match p with Some p => settable d p = true | None => True end →
  ∃ d',
    match p with Some p => _get d' p | None => d' end = VNull
    ∧ JsonDB.math cwd o (VStr k) op x p u fs
      = (<[JsonDB.getPath cwd o k := File (Text (reparse d'))]> fs,
         Ok (Plain d'))
    ∧ JsonDB.get cwd o (VStr k) p
        (<[JsonDB.getPath cwd o k := File (Text (reparse d'))]> fs)
      = (<[JsonDB.getPath cwd o k := File (Text (reparse d'))]> fs,
         Ok (Plain VNull)).
Proof.
  intros Hoff Hop Hd Hpath.
  assert (∀ base, JsonDB.mathOp base op x u = Ok VNull) as Hnull
    by (intros base; by apply mathOp_unknown).
  destruct p as [p|].
  - destruct (set_along cwd o k VNull d p fs Hd Hpath)
      as (d' & Hset & _ & Hthere & _ & Hback).
    destruct (Hback ltac:(done)) as [Hfound _].
    assert (isNil d = false) as Hnil.
    { apply andb_true_iff in Hpath as [Hobj _]. by destruct d. }
    exists d'. split; [done|]. split.
    + apply (math_overwrites cwd o Hoff k op x VNull d d' (Some p) u fs);
        [done|done|done|by rewrite Hnil].
    + destruct (read_back cwd o k (reparse d') p fs) as [Hget _].
      cbv zeta in Hget. by rewrite Hget, Hfound.
  - exists VNull. split; [done|]. split.
    + by apply (math_overwrites cwd o Hoff k op x VNull d VNull None u fs).
    + rewrite (get_existing cwd o (VStr k) None VNull _ eq_refl)
        by apply lookup_insert_eq.
      rewrite wrap_ok by (by left). by rewrite Hoff.
Qed.

Lemma math_with_an_unknown_operator_stores_null_witness :
  proxy default_options = false
  ∧ table_lookup (H := example_host) 0 "plus" = None
  ∧ stored app default_options "k"
      (disk_with (Text (VObj [("a", VNum 10)])))
    = Some (VObj [("a", VNum 10)])
  ∧ settable (VObj [("a", VNum 10)]) (Keys "a" []) = true
  ∧ JsonDB.math (H := example_host) app default_options (VStr "k") "plus"
      (VNum 5) (Some (Keys "a" [])) 0
      (disk_with (Text (VObj [("a", VNum 10)])))
    = (disk_with (Text (VObj [("a", VNull)])),
       Ok (Plain (VObj [("a", VNull)])))
  ∧ ∃ d',
      _get d' (Keys "a" []) = VNull
      ∧ JsonDB.math (H := example_host) app default_options (VStr "k")
          "plus" (VNum 5) (Some (Keys "a" [])) 0
          (disk_with (Text (VObj [("a", VNum 10)])))
        = (<[JsonDB.getPath app default_options "k"
             := File (Text (reparse d'))]>
             (disk_with (Text (VObj [("a", VNum 10)]))),
           Ok (Plain d'))
      ∧ JsonDB.get (H := example_host) app default_options (VStr "k")
          (Some (Keys "a" []))
          (<[JsonDB.getPath app default_options "k"
             := File (Text (reparse d'))]>
             (disk_with (Text (VObj [("a", VNum 10)]))))
        = (<[JsonDB.getPath app default_options "k"
             := File (Text (reparse d'))]>
             (disk_with (Text (VObj [("a", VNum 10)]))),
           Ok (Plain VNull)).
Proof.
  split; [reflexivity|]. split; [reflexivity|]. split; [evaluated|].
  split; [reflexivity|]. split; [evaluated|].
  apply (math_with_an_unknown_operator_stores_null (H := example_host) app
           default_options "k" "plus" (VNum 5) (VObj [("a", VNum 10)])
           (Some (Keys "a" [])) 0 (disk_with (Text (VObj [("a", VNum 10)]))));
    [reflexivity|reflexivity|evaluated|reflexivity].
Defined.

(** X10. [rand] and [random] take no account of what is stored: with the
    [proxy] option off and a number as operand, [math] replaces the
    document of the key, a number or not, by
    [floor (random * floor operand)]. *)
Theorem math_rand_replaces_the_document `{Host} (cwd : path) (o : DBOptions)
    (k op : string) (n u : float) (d : value) (fs : FS) :
  proxy o = false →
  op = "rand" ∨ op = "random" →
  stored cwd o k fs = Some d →
  JsonDB.math cwd o (VStr k) op (VNum n) None u fs
  = (<[JsonDB.getPath cwd o k
       := File (Text (reparse
                        (VNum (Math_floor (PrimFloat.mul u (Math_floor n))))))]>
       fs,
     Ok (Plain (VNum (Math_floor (PrimFloat.mul u (Math_floor n)))))).
Proof.
  intros Hoff Hop Hd.
  apply (math_overwrites cwd o Hoff k op (VNum n)
           (VNum (Math_floor (PrimFloat.mul u (Math_floor n)))) d _ None u fs);
    [|done|exact Hd|reflexivity].
  intros base. by destruct Hop as [-> | ->].
Qed.

Lemma math_rand_replaces_the_document_witness :
  proxy default_options = false
  ∧ JsonDB.math (H := example_host) app default_options (VStr "k") "rand"
      (VNum 6) None 0 (disk_with (Text (VObj [("a", VNum 1)])))
    = (<[JsonDB.getPath app default_options "k" := File (Text (VNum 0))]>
         (disk_with (Text (VObj [("a", VNum 1)]))),
       Ok (Plain (VNum 0))).
Proof.
  split; [reflexivity|].
  apply (math_rand_replaces_the_document (H := example_host) app
           default_options "k" "rand" 6 0 (VObj [("a", VNum 1)])
           (disk_with (Text (VObj [("a", VNum 1)])))).
  - reflexivity.
  - by left.
  - evaluated.
Defined.

(** ** [ensure] *)

(** X11. [ensure] without a path on a key that has no file, with a default
    JSON text represents: the default becomes the document of the key and
    is handed back, and [get] then returns it.  The key's file must be one
    [get] can initialize, and the handle one that can be built. *)
Theorem ensure_then_get `{Host} (cwd : path) (o : DBOptions) (k : string)
    (d : value) (fs fs1 : FS) (h0 : handle) :
  isNil d = false →
  representable d = true →
  fs !! JsonDB.getPath cwd o k = None →
  JsonDB.get cwd o (VStr k) None fs = (fs1, Ok h0) →
  proxy o = false ∨ isObject d = true →
  ∃ fs2,
    JsonDB.ensure cwd o (VStr k) d None fs = (fs2, Ok (Plain d))
    ∧ stored cwd o k fs2 = Some d
    ∧ JsonDB.get cwd o (VStr k) None fs2
      = (fs2, Ok (if proxy o then Proxy d (JsonDB.getPath cwd o k)
                  else Plain d)).
Proof.
  intros Hnil Hd Hfile Hget Hwrap.
  pose proof (ensure_provisions cwd o k d fs fs1 h0 Hnil Hfile Hget Hwrap)
    as Hensure.
  rewrite (reparse_representable d Hd) in Hensure.
  eexists. split; [exact Hensure|].
  assert (<[JsonDB.getPath cwd o k := File (Text d)]> fs1
            !! JsonDB.getPath cwd o k = Some (File (Text d))) as Hfile'
    by apply lookup_insert_eq.
  split; [unfold stored; by rewrite Hfile'|].
  rewrite (get_existing cwd o (VStr k) None d _ eq_refl Hfile').
  by apply wrap_ok.
Qed.

Lemma ensure_then_get_witness :
  isNil (VObj [("x", VNum 1)]) = false
  ∧ representable (VObj [("x", VNum 1)]) = true
  ∧ ∃ fs2,
      JsonDB.ensure (H := example_host) app default_options (VStr "k")
        (VObj [("x", VNum 1)]) None empty_disk
      = (fs2, Ok (Plain (VObj [("x", VNum 1)])))
      ∧ stored app default_options "k" fs2 = Some (VObj [("x", VNum 1)])
      ∧ JsonDB.get (H := example_host) app default_options (VStr "k") None
          fs2
        = (fs2, Ok (Plain (VObj [("x", VNum 1)]))).
Proof.
  split; [reflexivity|]. split; [reflexivity|].
  apply (ensure_then_get (H := example_host) app default_options "k"
           (VObj [("x", VNum 1)]) empty_disk
           (disk_with (Text (VObj []))) (Plain (VObj []))).
  - reflexivity.
  - reflexivity.
  - evaluated.
  - evaluated.
  - by left.
Defined.



(** ** The constructor *)

Lemma mkdir_under_exists (segs : list string) (pre : path) (fs fs' : FS) :
  mkdir_under pre segs fs = (fs', Ok ()) → segs ≠ [] →
  fs' !! (pre ++ segs) = Some Dir.
Proof.
  revert pre fs. induction segs as [|s segs IH]; intros pre fs Hrun Hne;
    [done|].
  cbn [mkdir_under] in Hrun.
  assert (∃ fs1, fs1 !! (pre ++ [s]) = Some Dir
                 ∧ mkdir_under (pre ++ [s]) segs fs1 = (fs', Ok ()))
    as (fs1 & Hdir & Hrec).
  { destruct (fs !! (pre ++ [s])) as [[c|]|] eqn:Hp.
    - done.
    - by exists fs.
    - exists (<[pre ++ [s] := Dir]> fs). split; [apply lookup_insert_eq|done]. }
  destruct segs as [|s' segs].
  - injection Hrec as <-. done.
  - replace (pre ++ s :: s' :: segs) with ((pre ++ [s]) ++ s' :: segs)
      by (by rewrite <- app_assoc).
    by apply (IH _ fs1).
Qed.

(** X13. [new JsonDB(options)], when it returns: it has made directories
    and nothing else.  A data directory that is given and not empty is the
    one the instance uses, and something exists at its path afterwards.
    Otherwise the instance uses [./data] and the constructor has not
    touched the file system: the default data directory is left for the
    first [get] to make. *)
Theorem constructor_and_data_directory (cwd : path)
    (options : option PartialOptions) (fs fs' : FS) (o : DBOptions) :
  new_JsonDB cwd options fs = (fs', Ok o) →
  (∀ q : path, fs' !! q = fs !! q ∨ (fs !! q = None ∧ fs' !! q = Some Dir))
  ∧ (∀ g d, options = Some g → given_dataDir g = Some d → d ≠ "" →
       dataDir o = d
       ∧ (resolve_onto cwd d = [] ∨ is_Some (fs' !! resolve_onto cwd d)))
  ∧ (options = None
     ∨ (∃ g, options = Some g
             ∧ (given_dataDir g = None ∨ given_dataDir g = Some "")) →
     dataDir o = "./data" ∧ fs' = fs).
Proof.
  unfold new_JsonDB. destruct options as [g|].
  2: { intros [-> [= ->]]%ret_inv. split; [by left|]. split; [done|].
       by intros _. }
  intros [(fs1 & dir & Hdir & [-> [= ->]]%ret_inv)|(e & _ & ?)]%bind_inv;
    [|done].
  cbn [dataDir].
  destruct (given_dataDir g) as [d|] eqn:Hgiven.
  2: { apply ret_inv in Hdir as [-> [= ->]]. split; [by left|].
       split; [intros g' d' [= <-] ?; congruence|]. by intros _. }
  destruct (String.eqb_spec d "") as [->|Hd].
  { apply ret_inv in Hdir as [-> [= ->]]. split; [by left|].
    split; [intros g' d' [= <-] ? ?; congruence|]. by intros _. }
  apply bind_inv in Hdir as [(fs2 & b & Hex & Hdir)|(e & _ & ?)]; [|done].
  apply bind_inv in Hdir as [(fs3 & u & Hmk & Hret)|(e & _ & ?)]; [|done].
  apply ret_inv in Hret as [Hfs [= Hdirname]]. subst fs1 dir.
  unfold existsSync in Hex. injection Hex as Hfs2 Hb. subst fs2.
  set (p := resolve_onto cwd d) in *.
  assert ((∀ q : path,
             fs3 !! q = fs !! q ∨ (fs !! q = None ∧ fs3 !! q = Some Dir))
          ∧ (p = [] ∨ is_Some (fs3 !! p))) as [Hdirs Hexists].
  { destruct b.
    - apply ret_inv in Hmk as [-> _]. split; [by left|].
      destruct p as [|s q]; [by left|]. right.
      by apply bool_decide_eq_true_1 in Hb.
    - split; [by eapply mkdir_under_inv|].
      destruct p as [|s q] eqn:Hp; [by left|]. right.
      unfold mkdirSync in Hmk. destruct u.
      pose proof (mkdir_under_exists (s :: q) [] fs fs3 Hmk ltac:(done)) as E.
      exact (mk_is_Some _ _ E). }
  split; [done|]. split.
  - intros g' d' [= <-] E _. rewrite Hgiven in E. by injection E as <-.
  - intros [?|(g' & [= <-] & [?|?])]; congruence.
Qed.

Lemma constructor_and_data_directory_witness :
  new_JsonDB app
    (Some {| given_dataDir := Some "./store/db"; given_cloneLevel := None;
             given_proxy := None |})
    (∅ : FS)
  = ({[ ["app"] := Dir; ["app"; "store"] := Dir;
        ["app"; "store"; "db"] := Dir ]},
     Ok {| dataDir := "./store/db"; cloneLevel := deep; proxy := false |})
  ∧ ∀ q : path,
      ({[ ["app"] := Dir; ["app"; "store"] := Dir;
          ["app"; "store"; "db"] := Dir ]} : FS) !! q = (∅ : FS) !! q
      ∨ ((∅ : FS) !! q = None
         ∧ ({[ ["app"] := Dir; ["app"; "store"] := Dir;
               ["app"; "store"; "db"] := Dir ]} : FS) !! q = Some Dir).
Proof.
  split; [evaluated|].
  apply (constructor_and_data_directory app
           (Some {| given_dataDir := Some "./store/db";
                    given_cloneLevel := None; given_proxy := None |})
           ∅ _ {| dataDir := "./store/db"; cloneLevel := deep;
                  proxy := false |}).
  evaluated.
Defined.

(** ** The earlier variant of [set] *)

Section earlier.
Context `{Host} (cwd : path) (o : DBOptions).

(** X14. In src/unnamed/part_000 with the [proxy] option off, [set] stores
    nothing.  When it returns, the file system is the one the [get] inside
    it has left, that [get] has returned the document of the key, and a
    [get] after the call returns that document again, not the value; yet
    without a path the call itself hands the value back. *)
Theorem earlier_set_stores_nothing (k : string) (x : value)
    (p : option PropertyPath) (fs fs' : FS) (h : handle) :
  proxy o = false →
  Part000.set cwd o (VStr k) x p fs = (fs', Ok h) →
  ∃ d, Part000.get cwd o (VStr k) None fs = (fs', Ok (Plain d))
       ∧ Part000.get cwd o (VStr k) None fs' = (fs', Ok (Plain d))
       ∧ (p = None → h = Plain x).
Proof.
  intros Hproxy. unfold Part000.set. cbn [isNil isString negb orb].
  cbn [JsonDB.toString].
  change (Part000.get cwd o (VStr k) None)
    with (JsonDB.get cwd o (VStr k) None).
  intros [(fs1 & h0 & Hget & Hrun)|(e & _ & ?)]%bind_inv; [|done].
  assert (fs' = fs1 ∧ (p = None → h = Plain x)) as [-> Hh].
  { apply bind_inv in Hrun as [(fs2 & d1 & Hdata & Hw)|(e & _ & ?)];
      [|done].
    unfold Part000.wrap in Hw. rewrite Hproxy in Hw.
    apply ret_inv in Hw as [-> [= ->]].
    destruct p as [p|].
    - apply bind_inv in Hdata as [(fs3 & u & Hfirst & Hset)|(e & _ & ?)];
        [|done].
      apply lift_inv in Hset as [-> _].
      pose proof Hget as Hget'. apply get_inv in Hget' as [_ Hget'].
      destruct (Hget' eq_refl h0 eq_refl) as (d & _ & _ & Hwrap).
      apply wrap_inv in Hwrap as [_ [[_ E]|[(E & _)|(E & _)]]];
        [|congruence|congruence].
      injection E as ->. cbn [first_assignment] in Hfirst.
      apply ret_inv in Hfirst as [-> _]. by split.
    - apply ret_inv in Hdata as [-> [= ->]]. by split. }
  pose proof Hget as Hget'. apply get_inv in Hget' as [_ Hget'].
  destruct (Hget' eq_refl h0 eq_refl) as (d & Hfile & _ & Hwrap).
  cbv zeta in *.
  apply wrap_inv in Hwrap as [_ [[_ E]|[(E & _)|(E & _)]]];
    [|congruence|congruence].
  injection E as ->. exists d. split; [done|]. split; [|done].
  rewrite (get_existing cwd o (VStr k) None d fs1 eq_refl Hfile).
  unfold JsonDB.wrap. by rewrite Hproxy.
Qed.

End earlier.

Lemma earlier_set_stores_nothing_witness :
  proxy default_options = false
  ∧ Part000.set (H := example_host) app default_options (VStr "k")
      (VNum 1) None (disk_with (Text (VNum 10)))
    = (disk_with (Text (VNum 10)), Ok (Plain (VNum 1)))
  ∧ ∃ d, Part000.get (H := example_host) app default_options (VStr "k") None
           (disk_with (Text (VNum 10)))
         = (disk_with (Text (VNum 10)), Ok (Plain d))
         ∧ Part000.get (H := example_host) app default_options (VStr "k")
             None (disk_with (Text (VNum 10)))
           = (disk_with (Text (VNum 10)), Ok (Plain d))
         ∧ (@None PropertyPath = None → Plain (VNum 1) = Plain (VNum 1)).
Proof.
  split; [reflexivity|]. split; [evaluated|].
  apply (earlier_set_stores_nothing (H := example_host) app default_options
           "k" (VNum 1) None (disk_with (Text (VNum 10)))
           (disk_with (Text (VNum 10))) (Plain (VNum 1)));
    [reflexivity|evaluated].
Defined.


(** ** Assignments through a handle *)

Section handle.
Context `{Host} (cwd : path) (o : DBOptions).


End handle.


(** ** [set] and [get] along a path *)

Section path_round_trip.
Context `{Host} (cwd : path) (o : DBOptions).

(** X17. The round trip along a path.  On a key that stores an array or
    an object, with a path lodash's [set] can follow in it (no key is
    [__proto__], [constructor], [prototype], [length] or the name of
    another member that objects inherit, and every array on the way is
    addressed by an index below [2^32 - 1]) and a value other than
    [undefined]: [set] puts the value at the path and writes the text of
    the document, [get] with the same path then returns the value as JSON
    text keeps it, which is the value itself when JSON text represents it,
    and [has] answers [true]. *)
Theorem set_at_a_path_then_get (k : string) (x d : value) (p : PropertyPath)
    (fs : FS) :
  stored cwd o k fs = Some d →
  settable d p = true →
  x ≠ VUndef →
  ∃ d',
    _get d' p = x
    ∧ JsonDB.set cwd o (VStr k) x (Some p) fs
      = (<[JsonDB.getPath cwd o k := File (Text (reparse d'))]> fs,
         Ok (if proxy o then Proxy d' (JsonDB.getPath cwd o k)
             else Plain d'))
    ∧ JsonDB.get cwd o (VStr k) (Some p)
        (<[JsonDB.getPath cwd o k := File (Text (reparse d'))]> fs)
      = (<[JsonDB.getPath cwd o k := File (Text (reparse d'))]> fs,
         Ok (Plain (reparse x)))
    ∧ JsonDB.has cwd o (VStr k) (Some p)
        (<[JsonDB.getPath cwd o k := File (Text (reparse d'))]> fs)
      = (<[JsonDB.getPath cwd o k := File (Text (reparse d'))]> fs, Ok true)
    ∧ (representable x = true →
       JsonDB.get cwd o (VStr k) (Some p)
         (<[JsonDB.getPath cwd o k := File (Text (reparse d'))]> fs)
       = (<[JsonDB.getPath cwd o k := File (Text (reparse d'))]> fs,
          Ok (Plain x))).
Proof.
  intros Hd Hpath Hx.
  destruct (set_along cwd o k x d p fs Hd Hpath)
    as (d' & _ & Hobj' & Hthere & Hset & Hback).
  destruct (Hback Hx) as [Hfound Hhas].
  destruct (read_back cwd o k (reparse d') p fs) as [Hget Hhas'].
  cbv zeta in Hget, Hhas'.
  exists d'. split; [done|]. split; [done|].
  split; [by rewrite Hget, Hfound|]. split.
  - rewrite Hhas' by (right; by apply isObject_reparse). by rewrite Hhas.
  - intros Hr. by rewrite Hget, Hfound, (reparse_representable x Hr).
Qed.

End path_round_trip.

Lemma set_at_a_path_then_get_witness :
  stored app default_options "k" (disk_with (Text (VObj [("b", VNum 7)])))
  = Some (VObj [("b", VNum 7)])
  ∧ settable (VObj [("b", VNum 7)]) (Keys "a" ["0"; "c"]) = true
  ∧ VStr "v" ≠ VUndef
  ∧ JsonDB.set (H := example_host) app default_options (VStr "k") (VStr "v")
      (Some (Keys "a" ["0"; "c"]))
      (disk_with (Text (VObj [("b", VNum 7)])))
    = (disk_with
         (Text (VObj [("b", VNum 7);
                      ("a", VArr [VObj [("c", VStr "v")]])])),
       Ok (Plain (VObj [("b", VNum 7);
                        ("a", VArr [VObj [("c", VStr "v")]])])))
  ∧ JsonDB.get (H := example_host) app default_options (VStr "k")
      (Some (Keys "a" ["0"; "c"]))
      (disk_with
         (Text (VObj [("b", VNum 7);
                      ("a", VArr [VObj [("c", VStr "v")]])])))
    = (disk_with
         (Text (VObj [("b", VNum 7);
                      ("a", VArr [VObj [("c", VStr "v")]])])),
       Ok (Plain (VStr "v")))
  ∧ ∃ d',
      _get d' (Keys "a" ["0"; "c"]) = VStr "v"
      ∧ JsonDB.set (H := example_host) app default_options (VStr "k")
          (VStr "v") (Some (Keys "a" ["0"; "c"]))
          (disk_with (Text (VObj [("b", VNum 7)])))
        = (<[JsonDB.getPath app default_options "k"
             := File (Text (reparse d'))]>
             (disk_with (Text (VObj [("b", VNum 7)]))),
           Ok (Plain d'))
      ∧ JsonDB.get (H := example_host) app default_options (VStr "k")
          (Some (Keys "a" ["0"; "c"]))
          (<[JsonDB.getPath app default_options "k"
             := File (Text (reparse d'))]>
             (disk_with (Text (VObj [("b", VNum 7)]))))
        = (<[JsonDB.getPath app default_options "k"
             := File (Text (reparse d'))]>
             (disk_with (Text (VObj [("b", VNum 7)]))),
           Ok (Plain (reparse (VStr "v"))))
      ∧ JsonDB.has (H := example_host) app default_options (VStr "k")
          (Some (Keys "a" ["0"; "c"]))
          (<[JsonDB.getPath app default_options "k"
             := File (Text (reparse d'))]>
             (disk_with (Text (VObj [("b", VNum 7)]))))
        = (<[JsonDB.getPath app default_options "k"
             := File (Text (reparse d'))]>
             (disk_with (Text (VObj [("b", VNum 7)]))),
           Ok true)
      ∧ (representable (VStr "v") = true →
         JsonDB.get (H := example_host) app default_options (VStr "k")
           (Some (Keys "a" ["0"; "c"]))
           (<[JsonDB.getPath app default_options "k"
              := File (Text (reparse d'))]>
              (disk_with (Text (VObj [("b", VNum 7)]))))
         = (<[JsonDB.getPath app default_options "k"
              := File (Text (reparse d'))]>
              (disk_with (Text (VObj [("b", VNum 7)]))),
            Ok (Plain (VStr "v")))).
Proof.
  split; [evaluated|]. split; [reflexivity|]. split; [discriminate|].
  split; [evaluated|]. split; [evaluated|].
  apply (set_at_a_path_then_get (H := example_host) app default_options "k"
           (VStr "v") (VObj [("b", VNum 7)]) (Keys "a" ["0"; "c"])
           (disk_with (Text (VObj [("b", VNum 7)]))));
    [evaluated|reflexivity|discriminate].
Defined.

(** ** [ensure] along a path *)

Section ensure_along.
Context `{Host} (cwd : path) (o : DBOptions).

(** X23. [ensure] with a path the document does not have.  On a key that
    stores an array or an object, with a path lodash's [set] can follow in
    it and that lodash's [has] does not find there, and a default that is
    not nil: the default is put at the path, the text of the document
    replaces the file, and the default itself is handed back;
    [get] with the same path then returns the default as JSON text keeps
    it. *)
Theorem ensure_puts_the_default_at_the_path (k : string) (x d : value)
    (p : PropertyPath) (fs : FS) :
  isNil x = false →
  stored cwd o k fs = Some d →
  settable d p = true →
  _has d p = false →
  ∃ d',
    _get d' p = x
    ∧ JsonDB.ensure cwd o (VStr k) x (Some p) fs
      = (<[JsonDB.getPath cwd o k := File (Text (reparse d'))]> fs,
         Ok (Plain x))
    ∧ JsonDB.get cwd o (VStr k) (Some p)
        (<[JsonDB.getPath cwd o k := File (Text (reparse d'))]> fs)
      = (<[JsonDB.getPath cwd o k := File (Text (reparse d'))]> fs,
         Ok (Plain (reparse x))).
Proof.
  intros Hx Hd Hpath Hhas.
  assert (x ≠ VUndef) as Hdef by (by destruct x).
  destruct (set_along cwd o k x d p fs Hd Hpath)
    as (d' & Hset & _ & Hthere & _ & Hback).
  destruct (Hback Hdef) as [Hfound _].
  pose proof Hpath as [Hobj _]%andb_true_iff.
  assert (isNil d = false) as Hnil by (by destruct d).
  exists d'. split; [done|]. split.
  - apply (ensure_provisions_at cwd o k x d d' p fs);
      [done|done|done|by right|by rewrite Hnil].
  - destruct (read_back cwd o k (reparse d') p fs) as [Hget _].
    cbv zeta in Hget. by rewrite Hget, Hfound.
Qed.

End ensure_along.

Lemma ensure_puts_the_default_at_the_path_witness :
  isNil (VNum 1) = false
  ∧ stored app default_options "k" (disk_with (Text (VObj [("b", VNum 7)])))
    = Some (VObj [("b", VNum 7)])
  ∧ settable (VObj [("b", VNum 7)]) (Keys "a" []) = true
  ∧ _has (VObj [("b", VNum 7)]) (Keys "a" []) = false
  ∧ JsonDB.ensure (H := example_host) app default_options (VStr "k") (VNum 1)
      (Some (Keys "a" [])) (disk_with (Text (VObj [("b", VNum 7)])))
    = (disk_with (Text (VObj [("b", VNum 7); ("a", VNum 1)])),
       Ok (Plain (VNum 1)))
  ∧ ∃ d',
      _get d' (Keys "a" []) = VNum 1
      ∧ JsonDB.ensure (H := example_host) app default_options (VStr "k")
          (VNum 1) (Some (Keys "a" []))
          (disk_with (Text (VObj [("b", VNum 7)])))
        = (<[JsonDB.getPath app default_options "k"
             := File (Text (reparse d'))]>
             (disk_with (Text (VObj [("b", VNum 7)]))),
           Ok (Plain (VNum 1)))
      ∧ JsonDB.get (H := example_host) app default_options (VStr "k")
          (Some (Keys "a" []))
          (<[JsonDB.getPath app default_options "k"
             := File (Text (reparse d'))]>
             (disk_with (Text (VObj [("b", VNum 7)]))))
        = (<[JsonDB.getPath app default_options "k"
             := File (Text (reparse d'))]>
             (disk_with (Text (VObj [("b", VNum 7)]))),
           Ok (Plain (reparse (VNum 1)))).
Proof.
  split; [reflexivity|]. split; [evaluated|]. split; [reflexivity|].
  split; [reflexivity|]. split; [evaluated|].
  apply (ensure_puts_the_default_at_the_path (H := example_host) app
           default_options "k" (VNum 1) (VObj [("b", VNum 7)]) (Keys "a" [])
           (disk_with (Text (VObj [("b", VNum 7)]))));
    [reflexivity|evaluated|reflexivity|reflexivity].
Defined.

(** ** Values [set] cannot hand back *)

Lemma reparse_not_object (x : value) :
  isObject x = false → isObject (reparse x) = false.
Proof.
  destruct x as [| | |n| | |]; try done. intros _. cbn [reparse].
  by repeat case_match.
Qed.

Section set_throws.
Context `{Host} (cwd : path) (o : DBOptions).

(** X18. [set] of [undefined] without a path throws a [TypeError] and
    stores nothing: [JSON.stringify] gives [undefined] for it, which
    [writeFileSync] refuses.  What is on disk is what the [get] inside
    [set] has left. *)
Theorem set_of_undefined_throws (k : string) (fs fs1 : FS) (h : handle) :
  JsonDB.get cwd o (VStr k) None fs = (fs1, Ok h) →
  JsonDB.set cwd o (VStr k) VUndef None fs = (fs1, Throw TypeError).
Proof.
  intros Hget. unfold JsonDB.set. cbn [isNil isString negb orb].
  cbn [JsonDB.toString]. rewrite (bind_ok _ _ _ _ _ Hget).
  unfold writeFileSync. by run.
Qed.

(** X19. With the [proxy] option on, [set] without a path of a value that
    is no array and no object first stores the value and then throws a
    [TypeError], since no handle can be built around it; from then on
    every [get] of the key without a path throws as well. *)
Theorem set_of_a_primitive_under_proxy (k : string) (x : value)
    (fs fs1 : FS) (h : handle) :
  proxy o = true → isObject x = false → x ≠ VUndef →
  JsonDB.get cwd o (VStr k) None fs = (fs1, Ok h) →
  let fs2 := <[JsonDB.getPath cwd o k := File (Text (reparse x))]> fs1 in
  JsonDB.set cwd o (VStr k) x None fs = (fs2, Throw TypeError)
  ∧ JsonDB.get cwd o (VStr k) None fs2 = (fs2, Throw TypeError).
Proof.
  intros Hproxy Hobj Hx Hget fs2. split.
  - rewrite (set_whole cwd o k x fs fs1 h Hget Hx). cbv zeta.
    unfold JsonDB.wrap, new_Proxy. run. by rewrite Hproxy, Hobj.
  - rewrite (get_existing cwd o (VStr k) None (reparse x) fs2 eq_refl)
      by apply lookup_insert_eq.
    unfold JsonDB.wrap, new_Proxy. run.
    by rewrite Hproxy, reparse_not_object.
Qed.

End set_throws.

Lemma set_of_undefined_throws_witness :
  JsonDB.get (H := example_host) app default_options (VStr "k") None
    (disk_with (Text (VNum 10)))
  = (disk_with (Text (VNum 10)), Ok (Plain (VNum 10)))
  ∧ JsonDB.set (H := example_host) app default_options (VStr "k") VUndef None
      (disk_with (Text (VNum 10)))
    = (disk_with (Text (VNum 10)), Throw TypeError).
Proof.
  split; [evaluated|].
  apply (set_of_undefined_throws (H := example_host) app default_options "k"
           (disk_with (Text (VNum 10))) (disk_with (Text (VNum 10)))
           (Plain (VNum 10))).
  evaluated.
Defined.

Lemma set_of_a_primitive_under_proxy_witness :
  proxy proxy_options = true
  ∧ isObject (VStr "v") = false
  ∧ VStr "v" ≠ VUndef
  ∧ JsonDB.get (H := example_host) app proxy_options (VStr "k") None
      empty_disk
    = (disk_with (Text (VObj [])),
       Ok (Proxy (VObj []) ["app"; "data"; "k.json"]))
  ∧ JsonDB.set (H := example_host) app proxy_options (VStr "k") (VStr "v")
      None empty_disk
    = (disk_with (Text (VStr "v")), Throw TypeError)
  ∧ JsonDB.get (H := example_host) app proxy_options (VStr "k") None
      (disk_with (Text (VStr "v")))
    = (disk_with (Text (VStr "v")), Throw TypeError).
Proof.
  split; [reflexivity|]. split; [reflexivity|]. split; [discriminate|].
  split; [evaluated|].
  pose proof (set_of_a_primitive_under_proxy (H := example_host) app
                proxy_options "k" (VStr "v") empty_disk
                (disk_with (Text (VObj [])))
                (Proxy (VObj []) ["app"; "data"; "k.json"])
                eq_refl eq_refl ltac:(discriminate)
                ltac:(evaluated)) as [Hset Hget].
  split.
  - etransitivity; [exact Hset|evaluated].
  - etransitivity; [|exact Hget]. evaluated.
Defined.

(** ** The general lemmas above, at an input *)

Lemma set_then_get_witness :
  representable (VNum 5) = true
  ∧ proxy default_options = false
  ∧ JsonDB.get (H := example_host) app default_options (VStr "k") None
      empty_disk
    = (disk_with (Text (VObj [])), Ok (Plain (VObj [])))
  ∧ ∃ fs2 h h',
      JsonDB.set (H := example_host) app default_options (VStr "k") (VNum 5)
        None empty_disk = (fs2, Ok h)
      ∧ JsonDB.get (H := example_host) app default_options (VStr "k") None
          fs2 = (fs2, Ok h')
      ∧ target_of h = VNum 5 ∧ target_of h' = VNum 5
      ∧ stored app default_options "k" fs2 = Some (VNum 5).
Proof.
  split; [evaluated|]. split; [reflexivity|].
  split; [evaluated|].
  apply (set_then_get (H := example_host) app default_options "k" (VNum 5)
           empty_disk (disk_with (Text (VObj []))) (Plain (VObj [])));
    [evaluated|left; reflexivity|evaluated].
Defined.

Lemma push_at_path_throws_witness :
  stored app default_options "k"
    (disk_with (Text (VObj [("a", VArr [VNum 1]); ("b", VNum 7)])))
  = Some (VObj [("a", VArr [VNum 1]); ("b", VNum 7)])
  ∧ _get (_get (VObj [("a", VArr [VNum 1]); ("b", VNum 7)]) (Keys "a" []))
      (Keys "a" [])
    = VUndef
  ∧ JsonDB.push (H := example_host) app default_options (VStr "k") (VNum 2)
      (Some (Keys "a" []))
      (disk_with (Text (VObj [("a", VArr [VNum 1]); ("b", VNum 7)])))
    = (disk_with (Text (VObj [("a", VArr [VNum 1]); ("b", VNum 7)])),
       Throw TypeError).
Proof.
  split; [evaluated|]. split; [evaluated|].
  apply (push_at_path_throws (H := example_host) app default_options "k"
           (VNum 2) (VObj [("a", VArr [VNum 1]); ("b", VNum 7)])).
  - evaluated.
  - intros l. vm_compute. discriminate.
Defined.

Lemma push_whole_witness :
  stored app default_options "k" (disk_with (Text (VArr [VNum 1])))
  = Some (VArr [VNum 1])
  ∧ JsonDB.push (H := example_host) app default_options (VStr "k") (VNum 2)
      None (disk_with (Text (VArr [VNum 1])))
    = (disk_with (Text (VArr [VNum 1; VNum 2])),
       Ok (Plain (VArr [VNum 1; VNum 2]))).
Proof.
  split; [evaluated|].
  etransitivity.
  - apply (push_whole (H := example_host) app default_options "k" (VNum 2)
             [VNum 1]).
    evaluated.
  - evaluated.
Defined.

Lemma ensure_at_path_makes_no_clone_witness :
  Aliasing.ensure (H := example_host) app default_options (VStr "k")
    (Aliasing.RRef 0) (Some (Keys "a" []))
    [Aliasing.OObj [("x", Aliasing.RNum 1)]] empty_disk
  = (disk_with (Text (VObj [("a", VObj [("x", VNum 1)])])),
     Ok ([Aliasing.OObj [("x", Aliasing.RNum 1)]],
         Aliasing.Given (Aliasing.RRef 0)))
  ∧ [Aliasing.OObj [("x", Aliasing.RNum 1)]]
    = [Aliasing.OObj [("x", Aliasing.RNum 1)]]
  ∧ (Aliasing.Given (Aliasing.RRef 0) = Aliasing.Given (Aliasing.RRef 0)
     ∨ ∃ doc, Aliasing.Given (Aliasing.RRef 0) = Aliasing.Fresh doc).
Proof.
  split; [evaluated|].
  apply (ensure_at_path_makes_no_clone (H := example_host) app
           default_options (VStr "k") (Aliasing.RRef 0) (Keys "a" [])
           [Aliasing.OObj [("x", Aliasing.RNum 1)]]
           [Aliasing.OObj [("x", Aliasing.RNum 1)]]
           (Aliasing.Given (Aliasing.RRef 0)) empty_disk
           (disk_with (Text (VObj [("a", VObj [("x", VNum 1)])])))).
  evaluated.
Defined.

Lemma deep_clone_is_apart_witness :
  cloneLevel default_options = deep
  ∧ Aliasing.clone default_options [Aliasing.OObj [("x", Aliasing.RNum 1)]]
      (Aliasing.RRef 0)
    = Some ([Aliasing.OObj [("x", Aliasing.RNum 1)];
             Aliasing.OObj [("x", Aliasing.RNum 1)]], Aliasing.RRef 1)
  ∧ (0 < length [Aliasing.OObj [("x", Aliasing.RNum 1)]])%nat
  ∧ Aliasing.content_of
      (Aliasing.mutate
         [Aliasing.OObj [("x", Aliasing.RNum 1)];
          Aliasing.OObj [("x", Aliasing.RNum 1)]] 0 "x" (Aliasing.RNum 2))
      (Aliasing.RRef 1)
    = Aliasing.content_of
        [Aliasing.OObj [("x", Aliasing.RNum 1)];
         Aliasing.OObj [("x", Aliasing.RNum 1)]] (Aliasing.RRef 1).
Proof.
  split; [reflexivity|]. split; [evaluated|]. split; [cbn; lia|].
  apply (AliasingFacts.deep_clone_is_apart default_options
           [Aliasing.OObj [("x", Aliasing.RNum 1)]]
           [Aliasing.OObj [("x", Aliasing.RNum 1)];
            Aliasing.OObj [("x", Aliasing.RNum 1)]]
           (Aliasing.RRef 0) (Aliasing.RRef 1) (Aliasing.RNum 2) 0 "x");
    [reflexivity|evaluated|cbn; lia].
Defined.

